(** * term-type: the typing-test state machine and its metrics

    A shallow embedding of [state.go] (the [TestState] struct and its
    methods) together with the few pieces of the Go language and of the
    packages [time] and [unicode/utf8] that the methods rely on.

    - Runes, lengths and counters are integers ([Z]).
    - A Go string is a sequence of bytes; [[]rune(s)] decodes it as UTF-8.
    - Slice indexing and reslicing panic out of range; a panic is [None].
    - [time.Now()] is an input of the environment: every method that reads
      the clock takes the readings as arguments, in program order.
    - [float64] is the kernel's binary64 ([PrimFloat]).

    Beside the session, the file holds the parts of the program around it
    that compute: the input handler and the layout of the typing box, the
    normalising of piped text, the choice of random words, the command
    line, and the dots of the results graph. *)

From Stdlib Require Import String Ascii ZArith List Lia Bool.
From Stdlib Require Import PrimFloat SpecFloat FloatOps.
From Equations Require Import Equations.
From Equations.Prop Require Import Logic.
Import ListNotations.
Local Open Scope Z_scope.

(** ** The Go side: panics, slices, strings, time, floats *)

Module Go.

(** A computation that may panic. *)
Definition bind {A B : Type} (m : option A) (k : A -> option B) : option B :=
  match m with
  | Some a => k a
  | None => None
  end.

Definition rune := Z.

(** [len(s)] for a slice. *)
Definition len {A : Type} (l : list A) : Z := Z.of_nat (length l).

(** [s[i]]: panics unless [0 <= i < len(s)]. *)
Definition index {A : Type} (l : list A) (i : Z) : option A :=
  if (0 <=? i) && (i <? len l) then nth_error l (Z.to_nat i) else None.

(** [s[:hi]]: panics unless [0 <= hi <= len(s)].  (Go also allows
    [len(s) < hi <= cap(s)]; the program never reslices upwards, and the
    model treats that as a panic too.) *)
Definition slice_to {A : Type} (l : list A) (hi : Z) : option (list A) :=
  if (0 <=? hi) && (hi <=? len l) then Some (firstn (Z.to_nat hi) l) else None.

(** [append(s, x)]. *)
Definition append {A : Type} (l : list A) (x : A) : list A := l ++ [x].

(** *** Strings and [[]rune(s)] *)

Definition bytes_of_string (s : string) : list Z :=
  map (fun a => Z.of_N (N_of_ascii a)) (list_ascii_of_string s).

Definition runeError : rune := 65533.   (* U+FFFD *)
Definition runeSelf : Z := 128.
Definition maxRune : rune := 1114111.   (* U+10FFFF *)
Definition surrogateMin : rune := 55296.
Definition surrogateMax : rune := 57343.
Definition rune1Max : rune := 127.
Definition rune2Max : rune := 2047.
Definition rune3Max : rune := 65535.

(** A continuation byte, [0x80 <= b <= 0xBF]. *)
Definition cont (b : Z) : bool := (128 <=? b) && (b <=? 191).

Definition low6 (b : Z) : Z := Z.land b 63.

(** The conversion [[]rune(s)]: each valid UTF-8 sequence gives its code
    point, and each byte that starts no valid sequence gives U+FFFD and
    is skipped alone. *)
Fixpoint decode (s : list Z) : list rune :=
  match s with
  | [] => []
  | b0 :: s0 =>
    let bad := runeError :: decode s0 in
    if b0 <? runeSelf then b0 :: decode s0
    else if (192 <=? b0) && (b0 <? 224) then
      match s0 with
      | b1 :: s1 =>
        let r := Z.lor (Z.shiftl (Z.land b0 31) 6) (low6 b1) in
        if cont b1 && (rune1Max <? r) then r :: decode s1 else bad
      | _ => bad
      end
    else if (224 <=? b0) && (b0 <? 240) then
      match s0 with
      | b1 :: b2 :: s2 =>
        let r := Z.lor (Z.shiftl (Z.land b0 15) 12)
                       (Z.lor (Z.shiftl (low6 b1) 6) (low6 b2)) in
        if cont b1 && cont b2 && (rune2Max <? r)
           && negb ((surrogateMin <=? r) && (r <=? surrogateMax))
        then r :: decode s2 else bad
      | _ => bad
      end
    else if (240 <=? b0) && (b0 <? 248) then
      match s0 with
      | b1 :: b2 :: b3 :: s3 =>
        let r := Z.lor (Z.shiftl (Z.land b0 7) 18)
                       (Z.lor (Z.shiftl (low6 b1) 12)
                              (Z.lor (Z.shiftl (low6 b2) 6) (low6 b3))) in
        if cont b1 && cont b2 && cont b3 && (rune3Max <? r) && (r <=? maxRune)
        then r :: decode s3 else bad
      | _ => bad
      end
    else bad
  end.

Definition runes (s : string) : list rune := decode (bytes_of_string s).

(** *** Package [time] *)

(** An instant, in nanoseconds on the clock's axis; the zero [Time] is 0. *)
Definition Time := Z.
Definition zeroTime : Time := 0.

(** A [Duration] is an [int64] count of nanoseconds. *)
Definition Duration := Z.
Definition minDuration : Duration := - 2 ^ 63.
Definition maxDuration : Duration := 2 ^ 63 - 1.
Definition Second : Duration := 1000000000.
Definition Minute : Duration := 60 * Second.

(** [t.Sub(u)]: the difference, saturated to the range of [Duration]. *)
Definition Sub (t u : Time) : Duration :=
  Z.max minDuration (Z.min maxDuration (t - u)).

(** [float64(n)] for an integer [n]: the nearest binary64, ties to even. *)
Definition float64_of_int (n : Z) : float :=
  SF2Prim (binary_normalize prec emax n 0 false).

(** [d.Minutes()]: integer division and remainder truncate towards zero. *)
Definition Minutes (d : Duration) : float :=
  (float64_of_int (Z.quot d Minute)
   + float64_of_int (Z.rem d Minute) / 60000000000)%float.

End Go.

Import Go.

Notation "x <- m ;; k" := (bind m (fun x => k))
  (at level 61, m at next level, right associativity).

(** ** [state.go] *)

Record TestState : Type := mkTestState {
  Target : string;        (* the full target text *)
  Input : list rune;      (* what the user has typed so far *)
  StartTime : Time;
  EndTime : Time;
  Started : bool;
  Finished : bool;
  TimedMode : bool;
  TimeLimitSec : Z;
  WordCount : Z;
  PipedText : string      (* original piped text for retry *)
}.

Definition set_Input (input : list rune) (s : TestState) : TestState :=
  mkTestState (Target s) input (StartTime s) (EndTime s) (Started s)
    (Finished s) (TimedMode s) (TimeLimitSec s) (WordCount s) (PipedText s).

(** [s.Started = true; s.StartTime = now] *)
Definition set_started (now : Time) (s : TestState) : TestState :=
  mkTestState (Target s) (Input s) now (EndTime s) true
    (Finished s) (TimedMode s) (TimeLimitSec s) (WordCount s) (PipedText s).

(** [s.Finished = true; s.EndTime = now] *)
Definition set_finished (now : Time) (s : TestState) : TestState :=
  mkTestState (Target s) (Input s) (StartTime s) now (Started s)
    true (TimedMode s) (TimeLimitSec s) (WordCount s) (PipedText s).

Definition NewTestState (target : string) (timedMode : bool)
    (timeLimitSec wordCount : Z) : TestState :=
  {| Target := target;
     Input := [];
     StartTime := zeroTime;
     EndTime := zeroTime;
     Started := false;
     Finished := false;
     TimedMode := timedMode;
     TimeLimitSec := timeLimitSec;
     WordCount := wordCount;
     PipedText := EmptyString |}.

(** [Finish]; [now] is the reading of [time.Now()]. *)
Definition Finish (now : Time) (s : TestState) : TestState :=
  if negb (Finished s) then set_finished now s else s.

(** [HandleChar].  The body reads the clock up to twice: [now] when the
    session starts, and [now'] inside [Finish] when this character
    completes the target. *)
Definition HandleChar (now now' : Time) (ch : rune) (s : TestState) : TestState :=
  if Finished s then s
  else
    let s1 := if negb (Started s) then set_started now s else s in
    (* Don't allow typing past the target length *)
    if len (Input s1) >=? len (runes (Target s1)) then s1
    else
      let s2 := set_Input (append (Input s1) ch) s1 in
      (* In word mode, finish when all characters are typed *)
      if negb (TimedMode s2) && (len (Input s2) =? len (runes (Target s2)))
      then Finish now' s2
      else s2.

Definition HandleBackspace (s : TestState) : option TestState :=
  if Finished s || (len (Input s) =? 0) then Some s
  else
    input <- slice_to (Input s) (len (Input s) - 1) ;;
    Some (set_Input input s).

Definition space : rune := 32.

(** The two loops of [HandleDeleteWord] have the same shape,
    [for len(in) > 0 && c(in[len(in)-1]) { in = in[:len(in)-1] }],
    with [c] the test on the last rune. *)
Equations? eraseWhile (c : rune -> bool) (input : list rune)
    : option (list rune) by wf (length input) lt :=
  eraseWhile c input with inspect (len input >? 0) := {
    | exist _ false _ => Some input
    | exist _ true Hlen with inspect (index input (len input - 1)) := {
      | exist _ None _ => None
      | exist _ (Some last) _ with c last := {
        | false => Some input
        | true with inspect (slice_to input (len input - 1)) := {
          | exist _ None _ => None
          | exist _ (Some input') Hcut => eraseWhile c input' } } } }.
Proof.
  unfold slice_to, len in *.
  destruct ((0 <=? _) && _); [|discriminate].
  injection Hcut as <-. rewrite length_firstn. lia.
Qed.

Definition HandleDeleteWord (s : TestState) : option TestState :=
  if Finished s || (len (Input s) =? 0) then Some s
  else
    (* Delete trailing spaces *)
    input1 <- eraseWhile (fun r => r =? space) (Input s) ;;
    (* Delete until space or empty *)
    input2 <- eraseWhile (fun r => negb (r =? space)) input1 ;;
    Some (set_Input input2 s).

(** [Elapsed]; [now] is the reading taken by [time.Since]. *)
Definition Elapsed (now : Time) (s : TestState) : Duration :=
  if negb (Started s) then 0
  else if Finished s then Sub (EndTime s) (StartTime s)
  else Sub now (StartTime s).

(** [for i, ch := range input { count = body i ch count }] *)
Fixpoint rangeLoop (body : Z -> rune -> Z -> option Z) (i : Z)
    (input : list rune) (count : Z) : option Z :=
  match input with
  | [] => Some count
  | ch :: rest =>
    count' <- body i ch count ;;
    rangeLoop body (i + 1) rest count'
  end.

Definition CorrectChars (s : TestState) : option Z :=
  let target := runes (Target s) in
  rangeLoop (fun i ch count =>
      if i <? len target then
        t <- index target i ;;
        Some (if ch =? t then count + 1 else count)
      else Some count)
    0 (Input s) 0.

Definition WrongChars (s : TestState) : option Z :=
  let target := runes (Target s) in
  rangeLoop (fun i ch count =>
      if i <? len target then
        t <- index target i ;;
        Some (if negb (ch =? t) then count + 1 else count)
      else Some count)
    0 (Input s) 0.

Definition WPM (now : Time) (s : TestState) : option float :=
  let elapsed := Minutes (Elapsed now s) in
  if (elapsed =? 0)%float then Some 0%float
  else
    correct <- CorrectChars s ;;
    Some ((float64_of_int correct / 5) / elapsed)%float.

Definition Accuracy (s : TestState) : option float :=
  let total := len (Input s) in
  if total =? 0 then Some 100%float
  else
    correct <- CorrectChars s ;;
    Some (float64_of_int correct / float64_of_int total * 100)%float.

(** ** The key events a session receives

    [TypingBox.InputHandler] forwards runes, Backspace and Ctrl-W to the
    session; [showResults] and the countdown call [Finish]. *)

Inductive event : Type :=
| KeyRune (now now' : Time) (ch : rune)
| KeyBackspace
| KeyCtrlW
| TimeUp (now : Time).

Definition handle (e : event) (s : TestState) : option TestState :=
  match e with
  | KeyRune now now' ch => Some (HandleChar now now' ch s)
  | KeyBackspace => HandleBackspace s
  | KeyCtrlW => HandleDeleteWord s
  | TimeUp now => Some (Finish now s)
  end.

Fixpoint run (es : list event) (s : TestState) : option TestState :=
  match es with
  | [] => Some s
  | e :: es' => s' <- handle e s ;; run es' s'
  end.

(** Typing the runes of [calls] one after the other. *)
Definition typeAll (calls : list (Time * Time * rune)) (s : TestState) : TestState :=
  fold_left (fun s c => HandleChar (fst (fst c)) (snd (fst c)) (snd c) s) calls s.

(** A session over "abc abc abc" with "abd ab" typed, the first rune at
    second 5. *)
Definition abd_session : TestState :=
  typeAll [(5000000000, 0, 97); (6000000000, 0, 98); (7000000000, 0, 100);
           (8000000000, 0, 32); (9000000000, 0, 97); (9500000000, 0, 98)]
    (NewTestState "abc abc abc" false 0 3).

(** ** The wording of the specification, for comparison *)

(** The longest suffix of runes satisfying [c] removed. *)
Fixpoint dropWhile (c : rune -> bool) (l : list rune) : list rune :=
  match l with
  | [] => []
  | x :: l' => if c x then dropWhile c l' else l
  end.

Definition stripSuffix (c : rune -> bool) (l : list rune) : list rune :=
  rev (dropWhile c (rev l)).

Definition isSpace (r : rune) : bool := r =? space.
Definition notSpace (r : rune) : bool := negb (r =? space).

(** Position [i] is within both [input] and [target], and the two runes
    there are equal ([same = true]) or differ ([same = false]). *)
Definition agree (same : bool) (input target : list rune) (i : nat) : bool :=
  match nth_error input i, nth_error target i with
  | Some a, Some b => Bool.eqb (a =? b) same
  | _, _ => false
  end.

Definition positions (same : bool) (input target : list rune) : list nat :=
  filter (agree same input target) (seq 0 (length input)).

Definition correctCount (input target : list rune) : Z :=
  len (positions true input target).

Definition wrongCount (input target : list rune) : Z :=
  len (positions false input target).

(** The body shared by the loops of [CorrectChars] and [WrongChars]:
    count when the comparison [ch == target[i]] gives [same]. *)
Definition countBody (same : bool) (target : list rune)
    (i : Z) (ch : rune) (count : Z) : option Z :=
  if i <? len target then
    t <- index target i ;;
    Some (if Bool.eqb (ch =? t) same then count + 1 else count)
  else Some count.

(** An untimed session that is not finished still lacks a rune. *)
Definition awaiting_input (s : TestState) : Prop :=
  TimedMode s = false -> Finished s = false ->
  len (Input s) < len (runes (Target s)).

(** The invariant of the data model. *)
Definition within_target (s : TestState) : Prop :=
  len (Input s) <= len (runes (Target s)).

(** ** The rest of [state.go] *)

(** [d.Seconds()] of package [time]. *)
Definition Seconds (d : Duration) : float :=
  (float64_of_int (Z.quot d Second)
   + float64_of_int (Z.rem d Second) / 1000000000)%float.

(** [TimeRemaining]; [now] is the reading taken by [Elapsed]. *)
Definition TimeRemaining (now : Time) (s : TestState) : float :=
  if negb (TimedMode s) || negb (Started s) then float64_of_int (TimeLimitSec s)
  else
    let rem := (float64_of_int (TimeLimitSec s) - Seconds (Elapsed now s))%float in
    if (rem <? 0)%float then 0%float else rem.

(** The clock readings of a sequence of events never go backwards,
    starting from [t]. *)
Definition in_order (t : Time) (e : event) : Prop :=
  match e with
  | KeyRune now now' _ => t <= now <= now'
  | TimeUp now => t <= now
  | _ => True
  end.

Definition advance (t : Time) (e : event) : Time :=
  match e with
  | KeyRune _ now' _ => now'
  | TimeUp now => now
  | _ => t
  end.

Fixpoint chronological (t : Time) (es : list event) : Prop :=
  match es with
  | [] => True
  | e :: es' => in_order t e /\ chronological (advance t e) es'
  end.

Definition last_reading (t : Time) (es : list event) : Time :=
  fold_left advance es t.

(** The timestamps of a session are consistent and not after [t]. *)
Definition stamped (t : Time) (s : TestState) : Prop :=
  (Started s = true -> StartTime s <= t)
  /\ (Finished s = true -> EndTime s <= t)
  /\ (Started s = true -> Finished s = true -> StartTime s <= EndTime s).

(** No [Finish] from outside: key events only. *)
Definition is_key (e : event) : bool :=
  match e with
  | TimeUp _ => false
  | _ => true
  end.

(** A finished session has its input complete. *)
Definition complete_if_finished (s : TestState) : Prop :=
  Finished s = true -> len (Input s) = len (runes (Target s)).

(** A loop that may not end: the result, a panic, or no more fuel. *)
Inductive outcome (A : Type) : Type :=
| Done (a : A)
| Panic
| OutOfFuel.
Arguments Done {A} a.
Arguments Panic {A}.
Arguments OutOfFuel {A}.

(** ** The typing box

    [InputHandler] and the layout part of [Draw].  The callbacks
    [onFinish] and [onEscape] belong to the caller; the model records which
    of them a key press calls. *)

Module TypingBox.

(** The keys [InputHandler] tells apart; [Rune r] is [KeyRune] with
    [event.Rune() = r], [Other] any other key. *)
Inductive key : Type :=
| Escape
| Backspace
| Backspace2
| CtrlW
| Rune (r : rune)
| Other.

Inductive callback : Type :=
| onFinish
| onEscape.

(** One key press; [now] and [now'] are the clock readings that
    [HandleChar] may take. *)
Definition InputHandler (now now' : Time) (k : key) (s : TestState)
    : option (TestState * list callback) :=
  if Finished s then Some (s, [])
  else
    match k with
    | Escape => Some (s, [onEscape])
    | Backspace | Backspace2 =>
      s' <- HandleBackspace s ;; Some (s', [])
    | CtrlW =>
      s' <- HandleDeleteWord s ;; Some (s', [])
    | Rune r =>
      let s' := HandleChar now now' r s in
      if Finished s' then Some (s', [onFinish]) else Some (s', [])
    | Other => Some (s, [])
    end.

(** A sequence of key presses, with the callbacks called along the way. *)
Fixpoint presses (ps : list (Time * Time * key)) (s : TestState)
    : option (TestState * list callback) :=
  match ps with
  | [] => Some (s, [])
  | p :: ps' =>
    r <- InputHandler (fst (fst p)) (snd (fst p)) (snd p) s ;;
    r' <- presses ps' (fst r) ;;
    Some (fst r', snd r ++ snd r')
  end.

Definition is_onFinish (c : callback) : bool :=
  match c with
  | onFinish => true
  | onEscape => false
  end.

(** [lineInfo]: a line is the runes [start <= i < end] of the target. *)
Record lineInfo : Type := mkLine { start : Z; end_ : Z }.

(** The inner loop of the word wrap:
    [for i < len(target) && col < width { ...; col++; i++ }],
    returning [i] and [lastSpace]. *)
Equations? scan (target : list rune) (width i lastSpace col : Z)
    : option (Z * Z) by wf (Z.to_nat (width - col)) lt :=
  scan target width i lastSpace col
    with inspect ((i <? len target) && (col <? width)) := {
    | exist _ false _ => Some (i, lastSpace)
    | exist _ true Hgo with inspect (index target i) := {
      | exist _ None _ => None
      | exist _ (Some c) _ =>
        scan target width (i + 1) (if c =? space then i else lastSpace) (col + 1) } }.
Proof.
  apply andb_true_iff in Hgo as [_ Hcol]. apply Z.ltb_lt in Hcol. lia.
Qed.

(** The outer loop of the word wrap, [for i < len(target) { ... }], one
    unit of fuel per turn. *)
Fixpoint wrapLoop (fuel : nat) (target : list rune) (width i : Z)
    (lines : list lineInfo) : outcome (list lineInfo) :=
  match fuel with
  | O => OutOfFuel
  | S fuel' =>
    if i <? len target then
      let lineStart := i in
      match scan target width i (-1) 0 with
      | None => Panic
      | Some (i1, lastSpace) =>
        if (i1 <? len target) && (lastSpace >? lineStart) then
          (* Wrap at last space *)
          wrapLoop fuel' target width (lastSpace + 1)
            (append lines (mkLine lineStart (lastSpace + 1)))
        else
          wrapLoop fuel' target width i1 (append lines (mkLine lineStart i1))
      end
    else Done lines
  end.

(** Which line the cursor is on:
    [for li, ln := range lines { ... break ... }]. *)
Fixpoint cursorLoop (cursorPos li : Z) (lines : list lineInfo) (cursorLine : Z) : Z :=
  match lines with
  | [] => cursorLine
  | ln :: rest =>
    if (cursorPos >=? start ln) && (cursorPos <? end_ ln) then li
    else
      cursorLoop cursorPos (li + 1) rest
        (if cursorPos >=? end_ ln then li + 1 else cursorLine)
  end.

(** [maxTextLines] and [scrollOffset] of [Draw]. *)
Definition maxTextLines (height : Z) : Z :=
  let m := height - 3 in
  if m <? 1 then 1 else m.

Definition scrollOffset (height cursorLine : Z) : Z :=
  if cursorLine >=? maxTextLines height then
    let off := cursorLine - Z.quot (maxTextLines height) 2 in
    if off <? 0 then 0 else off
  else 0.

(** The lines follow one another from [a] to [b] without gap or overlap. *)
Fixpoint chain (a b : Z) (lines : list lineInfo) : Prop :=
  match lines with
  | [] => a = b
  | ln :: rest => start ln = a /\ chain (end_ ln) b rest
  end.

(** A line holds at least one rune and at most [width]; when it is cut
    before the end of the target, it is full or ends in a space. *)
Definition fits (target : list rune) (width : Z) (ln : lineInfo) : Prop :=
  0 < end_ ln - start ln <= width
  /\ (end_ ln < len target ->
      end_ ln - start ln = width \/ index target (end_ ln - 1) = Some space).

End TypingBox.

(** ** [main.go]: the piped text, and [words.go]: the random words *)

Module Text.

(** [unicode.IsSpace]: in Latin-1 the runes tab, newline, vertical tab,
    form feed, carriage return, space, U+0085 and U+00A0; beyond it, the
    runes of the category White_Space. *)
Definition IsSpace (r : rune) : bool :=
  if (0 <=? r) && (r <=? 255) then
    (r =? 9) || (r =? 10) || (r =? 11) || (r =? 12) || (r =? 13) || (r =? 32)
    || (r =? 133) || (r =? 160)
  else
    (r =? 5760) || ((8192 <=? r) && (r <=? 8202)) || (r =? 8232) || (r =? 8233)
    || (r =? 8239) || (r =? 8287) || (r =? 12288).

(** The loop of [readPipedInput] over the runes of the trimmed text.  The
    builder [b] is held as the runes written to it, of which its string is
    the UTF-8 encoding. *)
Fixpoint collapseLoop (text : list rune) (b : list rune) (inSpace : bool)
    : list rune :=
  match text with
  | [] => b
  | r :: rest =>
    if IsSpace r then
      if negb inSpace then collapseLoop rest (append b space) true
      else collapseLoop rest b inSpace
    else collapseLoop rest (append b r) false
  end.

Definition collapse (text : list rune) : list rune := collapseLoop text [] false.

(** The same text, produced from the front. *)
Fixpoint collapseFrom (inSpace : bool) (text : list rune) : list rune :=
  match text with
  | [] => []
  | r :: rest =>
    if IsSpace r then
      if inSpace then collapseFrom true rest else space :: collapseFrom true rest
    else r :: collapseFrom false rest
  end.

(** No two spaces side by side. *)
Fixpoint single_spaced (l : list rune) : Prop :=
  match l with
  | a :: (b :: _) as rest => ~ (a = space /\ b = space) /\ single_spaced rest
  | _ => True
  end.

Definition visible (r : rune) : bool := negb (IsSpace r).

(** [rand.Intn(n)]: panics unless [n > 0]; [draw] is the number the
    generator gives, which lies in [0, n). *)
Definition Intn (draw n : Z) : option Z :=
  if n <=? 0 then None else Some draw.

(** The loop of [pickWords], [for i := range words { ... }], filling
    [count] entries from position [i] on; [rnd i] is the [i]-th number
    drawn. *)
Fixpoint fillWords (wordList : list string) (rnd : nat -> Z) (i count : nat)
    : option (list string) :=
  match count with
  | O => Some []
  | S count' =>
    k <- Intn (rnd i) (len wordList) ;;
    w <- index wordList k ;;
    rest <- fillWords wordList rnd (S i) count' ;;
    Some (w :: rest)
  end.

(** [pickWords].  [make([]string, n)] panics for a negative [n] and for an
    [n] beyond what can be allocated: [limit] is the largest length that
    [make] grants (at most [maxAlloc / 16], that is 2^44 strings on 64-bit
    Linux, and less when memory is short).  [strings.Join] puts one space
    between the words. *)
Definition pickWords (wordList : list string) (rnd : nat -> Z) (limit n : Z)
    : option string :=
  if (n <? 0) || (n >? limit) then None
  else
    words <- fillWords wordList rnd 0 (Z.to_nat n) ;;
    Some (String.concat " " words).

End Text.

(** ** The graph of the results page

    [setBrailleDot], [plotBresenham], [clampInt] and [abs].  The dot
    coordinates are [int]s, whose arithmetic wraps around at 64 bits.  A
    grid is a slice of rows of braille cells. *)

Module Graph.

(** [s[i] = v]: panics unless [0 <= i < len(s)]. *)
Definition store {A : Type} (l : list A) (i : Z) (v : A) : option (list A) :=
  if (0 <=? i) && (i <? len l)
  then Some (firstn (Z.to_nat i) l ++ v :: skipn (Z.to_nat (i + 1)) l)
  else None.

Definition brailleDots : list (list rune) :=
  [[1; 8]; [2; 16]; [4; 32]; [64; 128]].

(** An [int] has 64 bits: sums, differences and products wrap around. *)
Definition wrap (z : Z) : Z := (z + 2 ^ 63) mod 2 ^ 64 - 2 ^ 63.

Definition abs (x : Z) : Z := if x <? 0 then wrap (- x) else x.

Definition clampInt (v lo hi : Z) : Z :=
  if v <? lo then lo else if v >? hi then hi else v.

(** [/] and [%] of Go truncate towards zero.  The bounds test evaluates
    [len(grid[0])] only when [cellRow] is a row of the grid. *)
Definition setBrailleDot (grid : list (list rune)) (dotX dotY : Z)
    : option (list (list rune)) :=
  let cellCol := Z.quot dotX 2 in
  let cellRow := Z.quot dotY 4 in
  if (cellRow <? 0) || (cellRow >=? len grid) || (cellCol <? 0) then Some grid
  else
    row0 <- index grid 0 ;;
    if cellCol >=? len row0 then Some grid
    else
      let subX := Z.rem dotX 2 in
      let subY := Z.rem dotY 4 in
      dots <- index brailleDots subY ;;
      dot <- index dots subX ;;
      row <- index grid cellRow ;;
      cell <- index row cellCol ;;
      row' <- store row cellCol (Z.lor cell dot) ;;
      store grid cellRow row'.

(** The loop [for { ... }] of [plotBresenham], one unit of fuel per turn. *)
Fixpoint plotLoop (fuel : nat) (grid : list (list rune))
    (x0 y0 x1 y1 dx dy sx sy err : Z) : outcome (list (list rune)) :=
  match fuel with
  | O => OutOfFuel
  | S fuel' =>
    match setBrailleDot grid x0 y0 with
    | None => Panic
    | Some grid' =>
      if (x0 =? x1) && (y0 =? y1) then Done grid'
      else
        let e2 := wrap (2 * err) in
        let err1 := if e2 >? wrap (- dy) then wrap (err - dy) else err in
        let x0' := if e2 >? wrap (- dy) then wrap (x0 + sx) else x0 in
        let err2 := if e2 <? dx then wrap (err1 + dx) else err1 in
        let y0' := if e2 <? dx then wrap (y0 + sy) else y0 in
        plotLoop fuel' grid' x0' y0' x1 y1 dx dy sx sy err2
    end
  end.

Definition plotBresenham (fuel : nat) (grid : list (list rune))
    (x0 y0 x1 y1 : Z) : outcome (list (list rune)) :=
  let dx := abs (wrap (x1 - x0)) in
  let dy := abs (wrap (y1 - y0)) in
  let sx := if x0 >? x1 then -1 else 1 in
  let sy := if y0 >? y1 then -1 else 1 in
  plotLoop fuel grid x0 y0 x1 y1 dx dy sx sy (wrap (dx - dy)).

(** [grid[r][c]] *)
Definition cell (grid : list (list rune)) (r c : Z) : option rune :=
  row <- index grid r ;; index row c.

(** Every row of the grid has [w] cells. *)
Definition rect (w : Z) (grid : list (list rune)) : Prop :=
  Forall (fun row => len row = w) grid.

(** The dots set one after the other. *)
Fixpoint setDots (pts : list (Z * Z)) (grid : list (list rune))
    : option (list (list rune)) :=
  match pts with
  | [] => Some grid
  | p :: pts' => grid' <- setBrailleDot grid (fst p) (snd p) ;; setDots pts' grid'
  end.

(** A path of dots from [p] to [q]: each step moves by at most one dot in
    each direction, and not by none. *)
Fixpoint path (p q : Z * Z) (pts : list (Z * Z)) : Prop :=
  match pts with
  | [] => False
  | [a] => a = p /\ a = q
  | a :: ((b :: _) as rest) =>
    a = p /\ Z.abs (fst b - fst a) <= 1 /\ Z.abs (snd b - snd a) <= 1 /\ a <> b
    /\ path b q rest
  end.

(** Between [p] and [q], in both coordinates. *)
Definition in_box (p q a : Z * Z) : Prop :=
  Z.min (fst p) (fst q) <= fst a <= Z.max (fst p) (fst q)
  /\ Z.min (snd p) (snd q) <= snd a <= Z.max (snd p) (snd q).

End Graph.

(** ** [main.go]: the command line *)

Module Args.

(** What [parseArgs] does: it returns its four results, or the process
    exits ([usage] and the error paths call [os.Exit(1)]). *)
Inductive parsed : Type :=
| Return (mode : string) (timedMode : bool) (timeLimitSec wordCount : Z)
| Exit (code : Z).

(** An [int] of 64 bits: a product wraps around. *)
Definition wrap64 (z : Z) : Z := (z + 2 ^ 63) mod 2 ^ 64 - 2 ^ 63.

(** [parseArgs]; [args] is [os.Args[1:]], and [Atoi] is [strconv.Atoi],
    [None] standing for a result with [err != nil]. *)
Definition parseArgs (Atoi : string -> option Z) (args : list string) : parsed :=
  match args with
  | [] => Return "menu" false 0 0
  | a0 :: rest =>
    if (a0 =? "time")%string || (a0 =? "t")%string then
      match rest with
      | [] => Exit 1
      | a1 :: _ =>
        match Atoi a1 with
        | None => Exit 1
        | Some n =>
          if n <=? 0 then Exit 1
          else
            (* Generate roughly 3-4 words per second of typing *)
            let wc := wrap64 (n * 4) in
            Return "test" true n wc
        end
      end
    else if (a0 =? "words")%string || (a0 =? "w")%string then
      match rest with
      | [] => Exit 1
      | a1 :: _ =>
        match Atoi a1 with
        | None => Exit 1
        | Some n => if n <=? 0 then Exit 1 else Return "test" false 0 n
        end
      end
    else if (a0 =? "history")%string || (a0 =? "h")%string then
      Return "history" false 0 0
    else Exit 1
  end.

End Args.

(** ** The typing box: how a rune of the target is drawn *)

Module TypingBoxCells.

(** The four styles of the inner loop of [Draw]: typed right
    ([colorCorrect]), typed wrong ([colorWrongFg] on [colorWrongBg]), under
    the cursor, not yet typed ([colorPending]). *)
Inductive look : Type :=
| Correct
| Wrong
| Cursor
| Pending.

(** The body of [for ci := ln.start; ci < ln.end; ci++]: the rune and the
    style handed to [SetContent] for position [ci]. *)
Definition cellAt (input target : list rune) (ci : Z) : option (rune * look) :=
  let cursorPos := len input in
  ch <- index target ci ;;
  if ci <? cursorPos then
    (* Already typed *)
    right <- (if ci <? len input then
                a <- index input ci ;; b <- index target ci ;; Some (a =? b)
              else Some false) ;;
    if right then Some (ch, Correct)
    else
      differs <- (if ci <? len input then
                    a <- index input ci ;; b <- index target ci ;; Some (negb (a =? b))
                  else Some false) ;;
      ch' <- (if differs then index target ci else Some ch) ;;
      Some (ch', Wrong)
  else if ci =? cursorPos then Some (ch, Cursor)
  else Some (ch, Pending).

End TypingBoxCells.

(** ** Slices *)

Section Slices.
Context {A : Type}.
Implicit Types (l : list A) (x : A).

Lemma len_nonneg l : 0 <= len l.
Proof. unfold len. lia. Qed.

Lemma len_app l1 l2 : len (l1 ++ l2) = len l1 + len l2.
Proof. unfold len. rewrite length_app. lia. Qed.

Lemma len_zero l : len l = 0 <-> l = [].
Proof.
  unfold len. destruct l; simpl; split; intro H; try reflexivity; try discriminate; lia.
Qed.

Lemma len_snoc l x : len (l ++ [x]) = len l + 1.
Proof. rewrite len_app. reflexivity. Qed.

(** The last element of a non-empty slice is in range. *)
Lemma index_snoc l x : index (l ++ [x]) (len (l ++ [x]) - 1) = Some x.
Proof.
  unfold index. rewrite len_snoc.
  replace (len l + 1 - 1) with (len l) by lia.
  pose proof (len_nonneg l).
  replace (0 <=? len l) with true by (symmetry; apply Z.leb_le; lia).
  replace (len l <? len l + 1) with true by (symmetry; apply Z.ltb_lt; lia).
  simpl. unfold len. rewrite Nat2Z.id.
  rewrite nth_error_app2 by lia. rewrite Nat.sub_diag. reflexivity.
Qed.

(** Dropping the last element of a non-empty slice is in range. *)
Lemma slice_to_snoc l x : slice_to (l ++ [x]) (len (l ++ [x]) - 1) = Some l.
Proof.
  unfold slice_to. rewrite len_snoc.
  replace (len l + 1 - 1) with (len l) by lia.
  pose proof (len_nonneg l).
  replace (0 <=? len l) with true by (symmetry; apply Z.leb_le; lia).
  replace (len l <=? len l + 1) with true by (symmetry; apply Z.leb_le; lia).
  simpl. unfold len. rewrite Nat2Z.id.
  rewrite firstn_app, Nat.sub_diag, firstn_all. simpl. rewrite app_nil_r. reflexivity.
Qed.

Lemma snoc_cases l : l = [] \/ exists l' x, l = l' ++ [x].
Proof.
  destruct l as [|a l]; [left; reflexivity | right].
  destruct (@exists_last _ (a :: l)) as (l' & x & E); [discriminate|]. eauto.
Qed.

End Slices.

(** ** The erase loop *)

(** One turn of the loop. *)
Lemma eraseWhile_step c input :
  eraseWhile c input =
  if len input >? 0 then
    last <- index input (len input - 1) ;;
    if c last then
      input' <- slice_to input (len input - 1) ;; eraseWhile c input'
    else Some input
  else Some input.
Proof.
  funelim (eraseWhile c input); clear Heqcall;
    repeat match goal with
           | E : ?t = _ |- context [?t] => rewrite E; simpl
           end; reflexivity.
Qed.

Lemma eraseWhile_snoc c l x :
  eraseWhile c (l ++ [x]) = if c x then eraseWhile c l else Some (l ++ [x]).
Proof.
  rewrite eraseWhile_step, index_snoc, slice_to_snoc, len_snoc.
  pose proof (len_nonneg l).
  replace (len l + 1 >? 0) with true by (symmetry; apply Z.gtb_lt; lia).
  reflexivity.
Qed.

Lemma stripSuffix_snoc c l x :
  stripSuffix c (l ++ [x]) = if c x then stripSuffix c l else l ++ [x].
Proof.
  unfold stripSuffix. rewrite rev_app_distr. simpl.
  destruct (c x); [reflexivity|].
  simpl. rewrite rev_involutive. reflexivity.
Qed.

(** The loop never panics and always ends. *)
Lemma eraseWhile_total c l : eraseWhile c l = Some (stripSuffix c l).
Proof.
  induction l as [|x l IH] using rev_ind.
  - reflexivity.
  - rewrite eraseWhile_snoc, stripSuffix_snoc, IH. destruct (c x); reflexivity.
Qed.

Lemma dropWhile_split c l :
  exists gone, l = gone ++ dropWhile c l /\ Forall (fun r => c r = true) gone
    /\ (dropWhile c l = [] \/ exists y k, dropWhile c l = y :: k /\ c y = false).
Proof.
  induction l as [|x l (gone & E & Hg & Hk)]; simpl.
  - exists []. auto.
  - destruct (c x) eqn:Hx.
    + exists (x :: gone). simpl. rewrite <- E. auto.
    + exists []. simpl. split; [reflexivity|]. split; [constructor|].
      right. eauto.
Qed.

(** The suffix removed satisfies [c] throughout, and what is kept is empty
    or ends in a rune that fails [c]. *)
Lemma stripSuffix_split c l :
  exists gone, l = stripSuffix c l ++ gone /\ Forall (fun r => c r = true) gone
    /\ (stripSuffix c l = [] \/ exists k y, stripSuffix c l = k ++ [y] /\ c y = false).
Proof.
  unfold stripSuffix.
  destruct (dropWhile_split c (rev l)) as (gone & E & Hg & Hk).
  exists (rev gone). split; [|split].
  - rewrite <- rev_app_distr, <- E, rev_involutive. reflexivity.
  - apply Forall_rev. exact Hg.
  - destruct Hk as [-> | (y & k & -> & Hy)]; [left; reflexivity | right].
    exists (rev k), y. simpl. auto.
Qed.

Lemma stripSuffix_all c l : Forall (fun r => c r = true) l -> stripSuffix c l = [].
Proof.
  induction l as [|x l IH] using rev_ind; intros H; [reflexivity|].
  apply Forall_app in H as [Hl Hx]. inversion Hx as [|? ? Hcx _]; subst.
  rewrite stripSuffix_snoc, Hcx. apply IH. exact Hl.
Qed.

Lemma stripSuffix_app_all c l w :
  Forall (fun r => c r = true) w -> stripSuffix c (l ++ w) = stripSuffix c l.
Proof.
  induction w as [|x w IH] using rev_ind; intros H.
  - rewrite app_nil_r. reflexivity.
  - apply Forall_app in H as [Hw Hx]. inversion Hx as [|? ? Hcx _]; subst.
    rewrite app_assoc, stripSuffix_snoc, Hcx. apply IH. exact Hw.
Qed.

Lemma stripSuffix_stop c l x : c x = false -> stripSuffix c (l ++ [x]) = l ++ [x].
Proof. intros H. rewrite stripSuffix_snoc, H. reflexivity. Qed.

(** ** The methods never panic *)

Lemma slice_to_init (l : list rune) :
  l <> [] -> slice_to l (len l - 1) = Some (removelast l).
Proof.
  intros Hl. destruct (snoc_cases l) as [-> | (l' & x & ->)]; [contradiction|].
  rewrite slice_to_snoc, removelast_last. reflexivity.
Qed.

Lemma len_removelast (l : list rune) : l <> [] -> len (removelast l) = len l - 1.
Proof.
  intros Hl. destruct (snoc_cases l) as [-> | (l' & x & ->)]; [contradiction|].
  rewrite removelast_last, len_snoc. lia.
Qed.

Lemma len_eqb_zero (l : list rune) : (len l =? 0) = false -> l <> [].
Proof. intros H ->. discriminate. Qed.

Lemma HandleBackspace_eq s :
  HandleBackspace s =
  Some (if Finished s || (len (Input s) =? 0) then s
        else set_Input (removelast (Input s)) s).
Proof.
  unfold HandleBackspace.
  destruct (Finished s); simpl; [reflexivity|].
  destruct (len (Input s) =? 0) eqn:E; [reflexivity|].
  rewrite slice_to_init by (apply len_eqb_zero; exact E). reflexivity.
Qed.

Lemma HandleDeleteWord_eq s :
  HandleDeleteWord s =
  Some (if Finished s || (len (Input s) =? 0) then s
        else set_Input (stripSuffix notSpace (stripSuffix isSpace (Input s))) s).
Proof.
  unfold HandleDeleteWord.
  destruct (Finished s || (len (Input s) =? 0)); [reflexivity|].
  rewrite eraseWhile_total. simpl. rewrite eraseWhile_total. reflexivity.
Qed.

Lemma len_stripSuffix c l : len (stripSuffix c l) <= len l.
Proof.
  destruct (stripSuffix_split c l) as (gone & E & _).
  rewrite E at 2. rewrite len_app. pose proof (len_nonneg gone). lia.
Qed.

(** ** What each method leaves alone *)

Ltac crush_char :=
  unfold HandleChar, Finish, set_finished, set_Input, set_started;
  repeat match goal with
         | |- context [if ?b then _ else _] => destruct b eqn:?; simpl in *
         end;
  simpl in *; try reflexivity; try congruence.

Lemma HandleChar_Target now now' ch s : Target (HandleChar now now' ch s) = Target s.
Proof. crush_char. Qed.

Lemma HandleChar_TimedMode now now' ch s :
  TimedMode (HandleChar now now' ch s) = TimedMode s.
Proof. crush_char. Qed.

Lemma handle_total e s : exists s', handle e s = Some s'.
Proof.
  destruct e; simpl; eauto.
  - rewrite HandleBackspace_eq. eauto.
  - rewrite HandleDeleteWord_eq. eauto.
Qed.

Lemma handle_Target e s s' : handle e s = Some s' -> Target s' = Target s.
Proof.
  destruct e; simpl.
  - intros [= <-]. apply HandleChar_Target.
  - rewrite HandleBackspace_eq. intros [= <-].
    destruct (Finished s || _); reflexivity.
  - rewrite HandleDeleteWord_eq. intros [= <-].
    destruct (Finished s || _); reflexivity.
  - intros [= <-]. unfold Finish. destruct (negb _); reflexivity.
Qed.

Lemma handle_TimedMode e s s' : handle e s = Some s' -> TimedMode s' = TimedMode s.
Proof.
  destruct e; simpl.
  - intros [= <-]. apply HandleChar_TimedMode.
  - rewrite HandleBackspace_eq. intros [= <-].
    destruct (Finished s || _); reflexivity.
  - rewrite HandleDeleteWord_eq. intros [= <-].
    destruct (Finished s || _); reflexivity.
  - intros [= <-]. unfold Finish. destruct (negb _); reflexivity.
Qed.

(** ** The length of the input *)

Lemma HandleChar_within now now' ch s :
  within_target s -> within_target (HandleChar now now' ch s).
Proof.
  unfold within_target. intros H.
  unfold HandleChar, Finish, set_finished, set_Input, set_started, append.
  repeat match goal with
         | |- context [if ?b then _ else _] => destruct b eqn:?; simpl in *
         end; try exact H;
  rewrite len_snoc; lia.
Qed.

Lemma handle_within e s s' :
  handle e s = Some s' -> within_target s -> within_target s'.
Proof.
  destruct e; simpl.
  - intros [= <-]. apply HandleChar_within.
  - rewrite HandleBackspace_eq. intros [= <-]. unfold within_target.
    destruct (Finished s || _) eqn:E; [tauto|]. simpl.
    apply orb_false_elim in E as [_ E]. apply len_eqb_zero in E.
    rewrite len_removelast by exact E. lia.
  - rewrite HandleDeleteWord_eq. intros [= <-]. unfold within_target.
    destruct (Finished s || _); [tauto|]. simpl.
    pose proof (len_stripSuffix notSpace (stripSuffix isSpace (Input s))).
    pose proof (len_stripSuffix isSpace (Input s)). lia.
  - intros [= <-]. unfold Finish, within_target.
    destruct (negb _); simpl; tauto.
Qed.

Lemma run_total es s : exists s', run es s = Some s'.
Proof.
  revert s. induction es as [|e es IH]; intros s; simpl; eauto.
  destruct (handle_total e s) as (s1 & ->). simpl. apply IH.
Qed.

Lemma run_Target es : forall s s', run es s = Some s' -> Target s' = Target s.
Proof.
  induction es as [|e es IH]; intros s s'; simpl.
  - intros [= <-]. reflexivity.
  - destruct (handle e s) as [s1|] eqn:E; simpl; [|discriminate].
    intros H. rewrite (IH _ _ H). eapply handle_Target; eassumption.
Qed.

Lemma run_TimedMode es : forall s s', run es s = Some s' -> TimedMode s' = TimedMode s.
Proof.
  induction es as [|e es IH]; intros s s'; simpl.
  - intros [= <-]. reflexivity.
  - destruct (handle e s) as [s1|] eqn:E; simpl; [|discriminate].
    intros H. rewrite (IH _ _ H). eapply handle_TimedMode; eassumption.
Qed.

Lemma run_within es : forall s s', run es s = Some s' -> within_target s -> within_target s'.
Proof.
  induction es as [|e es IH]; intros s s'; simpl.
  - intros [= <-]. tauto.
  - destruct (handle e s) as [s1|] eqn:E; simpl; [|discriminate].
    intros H Hs. eapply IH; [eassumption|]. eapply handle_within; eassumption.
Qed.

Lemma NewTestState_within target tm tl wc : within_target (NewTestState target tm tl wc).
Proof. unfold within_target. simpl. apply len_nonneg. Qed.

(** ** Completion *)

Lemma decode_nonempty bs : bs <> [] -> decode bs <> [].
Proof.
  destruct bs as [|b0 s0]; [contradiction|]. intros _. simpl.
  repeat match goal with
         | |- context [if ?b then _ else _] => destruct b
         | |- context [match ?l with [] => _ | _ :: _ => _ end] => destruct l
         end; discriminate.
Qed.

Lemma runes_nonempty target : target <> EmptyString -> 0 < len (runes target).
Proof.
  intros H. unfold runes.
  assert (E : decode (bytes_of_string target) <> []).
  { apply decode_nonempty. destruct target; [contradiction | discriminate]. }
  pose proof (len_nonneg (decode (bytes_of_string target))).
  destruct (Z.eq_dec (len (decode (bytes_of_string target))) 0) as [Z0|]; [|lia].
  apply len_zero in Z0. contradiction.
Qed.

(** An accepted character. *)
Lemma HandleChar_accept now now' ch s :
  Finished s = false -> len (Input s) < len (runes (Target s)) ->
  Input (HandleChar now now' ch s) = Input s ++ [ch]
  /\ (Finished (HandleChar now now' ch s) = true <->
      TimedMode s = false /\ len (Input s) + 1 = len (runes (Target s))).
Proof.
  intros HF Hlt.
  assert (G : (len (Input s) >=? len (runes (Target s))) = false).
  { unfold Z.geb. destruct (Z.compare_spec (len (Input s)) (len (runes (Target s))));
      try reflexivity; lia. }
  unfold HandleChar, Finish. rewrite HF.
  destruct (Started s); simpl; rewrite G; unfold append; simpl;
    rewrite len_snoc, HF; simpl;
    destruct (TimedMode s); simpl;
    try (destruct (Z.eqb_spec (len (Input s) + 1) (len (runes (Target s)))));
    simpl; (split; [reflexivity|]); split; try tauto; try (intros [? ?]); try discriminate;
    try congruence; auto.
Qed.

(** A refused character. *)
Lemma HandleChar_refuse now now' ch s :
  Finished s = true \/ len (Input s) >= len (runes (Target s)) ->
  Input (HandleChar now now' ch s) = Input s
  /\ Finished (HandleChar now now' ch s) = Finished s.
Proof.
  intros H. unfold HandleChar.
  destruct (Finished s) eqn:HF; [split; congruence|].
  destruct H as [H|H]; [discriminate|].
  assert (G : (len (Input s) >=? len (runes (Target s))) = true).
  { unfold Z.geb. destruct (Z.compare_spec (len (Input s)) (len (runes (Target s))));
      try reflexivity; lia. }
  destruct (Started s); simpl; rewrite G; simpl; auto.
Qed.

Lemma handle_awaiting e s s' :
  handle e s = Some s' -> awaiting_input s -> awaiting_input s'.
Proof.
  unfold awaiting_input. destruct e; simpl.
  - intros [= <-] Hs. rewrite HandleChar_TimedMode, HandleChar_Target. intros HT HF'.
    destruct (Finished s) eqn:HF.
    { destruct (HandleChar_refuse now now' ch s) as [_ E]; [auto|]. congruence. }
    specialize (Hs HT eq_refl).
    destruct (HandleChar_accept now now' ch s HF Hs) as [-> Hiff].
    rewrite len_snoc.
    destruct (Z.eq_dec (len (Input s) + 1) (len (runes (Target s)))) as [E|]; [|lia].
    assert (Finished (HandleChar now now' ch s) = true) by (apply Hiff; auto).
    congruence.
  - rewrite HandleBackspace_eq. intros [= <-] Hs.
    destruct (Finished s || _) eqn:E; [exact Hs|]. simpl. intros HT HF.
    apply orb_false_elim in E as [_ E]. apply len_eqb_zero in E.
    rewrite len_removelast by exact E. specialize (Hs HT HF). lia.
  - rewrite HandleDeleteWord_eq. intros [= <-] Hs.
    destruct (Finished s || _); [exact Hs|]. simpl. intros HT HF.
    pose proof (len_stripSuffix notSpace (stripSuffix isSpace (Input s))).
    pose proof (len_stripSuffix isSpace (Input s)). specialize (Hs HT HF). lia.
  - intros [= <-] Hs. unfold Finish.
    destruct (Finished s) eqn:HF; simpl; [rewrite HF; exact Hs | discriminate].
Qed.

Lemma run_awaiting es : forall s s',
  run es s = Some s' -> awaiting_input s -> awaiting_input s'.
Proof.
  induction es as [|e es IH]; intros s s'; simpl.
  - intros [= <-]. tauto.
  - destruct (handle e s) as [s1|] eqn:E; simpl; [|discriminate].
    intros H Hs. eapply IH; [eassumption|]. eapply handle_awaiting; eassumption.
Qed.

(** In timed mode a character never finishes the session. *)
Lemma HandleChar_timed now now' ch s :
  TimedMode s = true -> Finished (HandleChar now now' ch s) = Finished s.
Proof.
  intros HT. unfold HandleChar.
  destruct (Finished s) eqn:HF; [exact HF|].
  destruct (Started s); simpl;
    destruct (len (Input s) >=? len (runes (Target s))); simpl;
    rewrite ?HT; simpl; exact HF.
Qed.

Lemma typeAll_timed calls : forall s,
  TimedMode s = true -> Finished s = false -> Finished (typeAll calls s) = false.
Proof.
  induction calls as [|c calls IH]; intros s HT HF; simpl; [exact HF|].
  apply IH.
  - rewrite HandleChar_TimedMode. exact HT.
  - rewrite HandleChar_timed by exact HT. exact HF.
Qed.

Lemma typeAll_finished calls : forall s, Finished s = true -> typeAll calls s = s.
Proof.
  induction calls as [|c calls IH]; intros s HF; simpl; [reflexivity|].
  unfold HandleChar at 1. rewrite HF. apply IH. exact HF.
Qed.

Lemma typeAll_accept calls : forall s,
  Finished s = false ->
  len (Input s) + len calls <= len (runes (Target s)) ->
  Input (typeAll calls s) = Input s ++ map snd calls.
Proof.
  induction calls as [|c calls IH]; intros s HF Hle; simpl.
  - rewrite app_nil_r. reflexivity.
  - change (len (c :: calls)) with (Z.of_nat (S (length calls))) in Hle.
    rewrite Nat2Z.inj_succ in Hle. fold (len calls) in Hle.
    pose proof (len_nonneg calls).
    destruct (HandleChar_accept (fst (fst c)) (snd (fst c)) (snd c) s HF) as [E Hiff]; [lia|].
    destruct (Finished (HandleChar (fst (fst c)) (snd (fst c)) (snd c) s)) eqn:HF'.
    + rewrite typeAll_finished by exact HF'. rewrite E.
      destruct Hiff as [Hiff _]. destruct (Hiff eq_refl) as [_ Hfull].
      assert (Z0 : len calls = 0) by lia. apply len_zero in Z0. subst calls.
      reflexivity.
    + rewrite IH; [| exact HF' |].
      * rewrite E, <- app_assoc. reflexivity.
      * rewrite E, len_snoc, HandleChar_Target. lia.
Qed.

(** ** Counting *)

Lemma rangeLoop_ext body1 body2 :
  (forall i ch count, body1 i ch count = body2 i ch count) ->
  forall input i count, rangeLoop body1 i input count = rangeLoop body2 i input count.
Proof.
  intros Hext. induction input as [|ch rest IH]; intros i count; simpl; [reflexivity|].
  rewrite Hext. destruct (body2 i ch count); simpl; [apply IH | reflexivity].
Qed.

Lemma index_nth_error (l : list rune) (k : nat) : index l (Z.of_nat k) = nth_error l k.
Proof.
  unfold index, len.
  replace (0 <=? Z.of_nat k) with true by (symmetry; apply Z.leb_le; lia).
  rewrite Nat2Z.id. simpl.
  destruct (Z.ltb_spec (Z.of_nat k) (Z.of_nat (length l))) as [H|H]; [reflexivity|].
  symmetry. apply nth_error_None. lia.
Qed.

Lemma CorrectChars_body s :
  CorrectChars s = rangeLoop (countBody true (runes (Target s))) 0 (Input s) 0.
Proof.
  unfold CorrectChars. apply rangeLoop_ext. intros i ch count. unfold countBody.
  destruct (i <? _); [|reflexivity].
  destruct (index _ i) as [t|]; simpl; [|reflexivity].
  destruct (ch =? t); reflexivity.
Qed.

Lemma WrongChars_body s :
  WrongChars s = rangeLoop (countBody false (runes (Target s))) 0 (Input s) 0.
Proof.
  unfold WrongChars. apply rangeLoop_ext. intros i ch count. unfold countBody.
  destruct (i <? _); [|reflexivity].
  destruct (index _ i) as [t|]; simpl; [|reflexivity].
  destruct (ch =? t); reflexivity.
Qed.

(** The loop, started after [pre] has been read. *)
Lemma rangeLoop_count same target input : forall pre count,
  rangeLoop (countBody same target) (len pre) input count =
  Some (count + len (filter (agree same (pre ++ input) target)
                            (seq (length pre) (length input)))).
Proof.
  induction input as [|ch rest IH]; intros pre count.
  - simpl. rewrite Z.add_0_r. reflexivity.
  - cbn [rangeLoop length seq filter].
    assert (Hin : nth_error (pre ++ ch :: rest) (length pre) = Some ch).
    { rewrite nth_error_app2 by lia. rewrite Nat.sub_diag. reflexivity. }
    assert (Hstep : countBody same target (len pre) ch count =
                    Some (if agree same (pre ++ ch :: rest) target (length pre)
                          then count + 1 else count)).
    { unfold countBody, agree. rewrite Hin.
      unfold len at 1 3. rewrite index_nth_error.
      destruct (Z.ltb_spec (Z.of_nat (length pre)) (len target)) as [H|H].
      - destruct (nth_error target (length pre)) as [t|] eqn:Ht; [reflexivity|].
        apply nth_error_None in Ht. unfold len in H. lia.
      - assert (Ht : nth_error target (length pre) = None).
        { apply nth_error_None. unfold len in H. lia. }
        rewrite Ht. reflexivity. }
    rewrite Hstep. cbn [bind].
    replace (len pre + 1) with (len (pre ++ [ch])) by apply len_snoc.
    rewrite IH. rewrite <- app_assoc. cbn [app].
    rewrite length_app. cbn [length]. rewrite Nat.add_1_r.
    destruct (agree same (pre ++ ch :: rest) target (length pre)).
    + f_equal. unfold len. cbn [length]. lia.
    + reflexivity.
Qed.

Lemma CorrectChars_eq s : CorrectChars s = Some (correctCount (Input s) (runes (Target s))).
Proof. rewrite CorrectChars_body. apply (rangeLoop_count true _ _ [] 0). Qed.

Lemma WrongChars_eq s : WrongChars s = Some (wrongCount (Input s) (runes (Target s))).
Proof. rewrite WrongChars_body. apply (rangeLoop_count false _ _ [] 0). Qed.

Lemma agree_spec same input target i :
  agree same input target i = true <->
  exists a b, nth_error input i = Some a /\ nth_error target i = Some b
              /\ (if same then a = b else a <> b).
Proof.
  unfold agree.
  destruct (nth_error input i) as [a|]; [|split; [discriminate | intros (?&?&?&_); discriminate]].
  destruct (nth_error target i) as [b|]; [|split; [discriminate | intros (?&?&_&?&_); discriminate]].
  destruct (Z.eqb_spec a b) as [E|E]; destruct same; simpl; split; intros H;
    try discriminate;
    try (exists a, b; repeat split; assumption);
    destruct H as (a' & b' & [= <-] & [= <-] & H); congruence.
Qed.

Lemma positions_spec same input target i :
  In i (positions same input target) <->
  exists a b, nth_error input i = Some a /\ nth_error target i = Some b
              /\ (if same then a = b else a <> b).
Proof.
  unfold positions. rewrite filter_In, agree_spec, in_seq. split.
  - tauto.
  - intros H. split; [|exact H]. destruct H as (a & b & Ha & _).
    assert (nth_error input i <> None) by congruence.
    apply nth_error_Some in H. lia.
Qed.

Lemma positions_NoDup same input target : NoDup (positions same input target).
Proof. apply NoDup_filter, seq_NoDup. Qed.

(** Within the target every typed position is right or wrong, not both. *)
Lemma count_partition input target :
  len input <= len target ->
  correctCount input target + wrongCount input target = len input.
Proof.
  intros Hle. unfold correctCount, wrongCount, positions, len in *.
  assert (G : forall l, (forall i, In i l -> (i < length input)%nat) ->
    (length (filter (agree true input target) l)
     + length (filter (agree false input target) l) = length l)%nat).
  { induction l as [|i l IH]; intros Hl; [reflexivity|].
    assert (Hi : (i < length input)%nat) by (apply Hl; left; reflexivity).
    specialize (IH (fun j Hj => Hl j (or_intror Hj))).
    destruct (nth_error input i) as [a|] eqn:Ha;
      [|apply nth_error_None in Ha; lia].
    destruct (nth_error target i) as [b|] eqn:Hb;
      [|apply nth_error_None in Hb; lia].
    assert (Ht : agree true input target i = (a =? b)).
    { unfold agree. rewrite Ha, Hb. destruct (a =? b); reflexivity. }
    assert (Hf : agree false input target i = negb (a =? b)).
    { unfold agree. rewrite Ha, Hb. destruct (a =? b); reflexivity. }
    cbn [filter]. rewrite Ht, Hf.
    destruct (a =? b); cbn [negb length]; lia. }
  specialize (G (seq 0 (length input))).
  rewrite length_seq in G.
  rewrite <- G at 3; [lia|]. intros i Hi. apply in_seq in Hi. lia.
Qed.

(** ** The empty target *)

(** Once the input has reached the target, no key changes [Finished]. *)
Lemma handle_key_Finished e s s' :
  handle e s = Some s' -> (forall t, e <> TimeUp t) ->
  len (Input s) >= len (runes (Target s)) ->
  Finished s' = Finished s.
Proof.
  destruct e; simpl.
  - intros [= <-] _ Hfull. apply HandleChar_refuse. right. exact Hfull.
  - rewrite HandleBackspace_eq. intros [= <-] _ _.
    destruct (Finished s || _); reflexivity.
  - rewrite HandleDeleteWord_eq. intros [= <-] _ _.
    destruct (Finished s || _); reflexivity.
  - intros _ H. destruct (H now). reflexivity.
Qed.

Lemma run_empty_target es : forall s s',
  run es s = Some s' -> runes (Target s) = [] -> Input s = [] ->
  Input s' = []
  /\ ((forall e, In e es -> forall t, e <> TimeUp t) -> Finished s' = Finished s).
Proof.
  induction es as [|e es IH]; intros s s'; simpl.
  - intros [= <-] _ Hin. auto.
  - destruct (handle e s) as [s1|] eqn:E; simpl; [|discriminate].
    intros Hrun Ht Hin.
    assert (Hw : within_target s1).
    { eapply handle_within; [exact E|]. unfold within_target. rewrite Ht, Hin. simpl. lia. }
    pose proof (handle_Target _ _ _ E) as HT1.
    assert (Hin1 : Input s1 = []).
    { unfold within_target in Hw. rewrite HT1, Ht in Hw.
      pose proof (len_nonneg (Input s1)). apply len_zero.
      change (len (@nil rune)) with 0 in Hw. lia. }
    assert (Ht1 : runes (Target s1) = []) by (rewrite HT1; exact Ht).
    destruct (IH _ _ Hrun Ht1 Hin1) as [Hin' HF']. split; [exact Hin'|].
    intros Hkeys. rewrite HF' by (intros e' He'; apply Hkeys; right; exact He').
    eapply handle_key_Finished; [exact E | apply Hkeys; left; reflexivity |].
    rewrite Ht, Hin. simpl. lia.
Qed.

(** ** The metrics *)

Lemma Accuracy_eq s :
  Accuracy s =
  Some (if len (Input s) =? 0 then 100%float
        else (float64_of_int (correctCount (Input s) (runes (Target s)))
              / float64_of_int (len (Input s)) * 100)%float).
Proof.
  unfold Accuracy. destruct (len (Input s) =? 0); [reflexivity|].
  rewrite CorrectChars_eq. reflexivity.
Qed.

Lemma WPM_eq now s :
  WPM now s =
  Some (if (Minutes (Elapsed now s) =? 0)%float then 0%float
        else (float64_of_int (correctCount (Input s) (runes (Target s))) / 5
              / Minutes (Elapsed now s))%float).
Proof.
  unfold WPM. destruct (Minutes (Elapsed now s) =? 0)%float; [reflexivity|].
  rewrite CorrectChars_eq. reflexivity.
Qed.

Lemma len_eqb_nonempty (l : list rune) : l <> [] -> (len l =? 0) = false.
Proof.
  intros H. destruct (len l =? 0) eqn:E; [|reflexivity].
  apply Z.eqb_eq, len_zero in E. contradiction.
Qed.

(** A few runs of the model. *)

Example runes_utf8 : runes "héllo €" = [104; 233; 108; 108; 111; 32; 8364].
Proof. reflexivity. Qed.

Example Minutes_half : Minutes (30 * Second) = 0.5%float.
Proof. reflexivity. Qed.

Example Elapsed_running : Elapsed 35000000000 abd_session = 30 * Second.
Proof. reflexivity. Qed.

(** * The claims *)

(** C1.  Completion depends only on the mode.  In a session built over a
    non-empty target, a [HandleChar] call on an unfinished session makes it
    [Finished] exactly when the session is untimed and the input lacks one
    rune of the target, which the call then appends: exactly when the call
    brings the input to the length of the target.  A timed session stays
    unfinished under any run of [HandleChar] calls, also under the call
    that brings the input to the length of the target; and [Finish]
    finishes any session. *)
Theorem completion_by_mode (target : string) (timedMode : bool)
    (timeLimitSec wordCount : Z) (es : list event) (s : TestState)
    (now now' : Time) (ch : rune) :
  target <> EmptyString ->
  run es (NewTestState target timedMode timeLimitSec wordCount) = Some s ->
  (Finished s = false ->
   (Finished (HandleChar now now' ch s) = true <->
    timedMode = false /\ len (Input s) + 1 = len (runes target))
   /\ (Finished (HandleChar now now' ch s) = true <->
       timedMode = false
       /\ len (Input (HandleChar now now' ch s)) = len (runes target))
   /\ (len (Input s) < len (runes target) ->
       Input (HandleChar now now' ch s) = Input s ++ [ch]))
  /\ (timedMode = true -> Finished s = false ->
      forall calls, Finished (typeAll calls s) = false)
  /\ (timedMode = true -> Finished s = false ->
      len (Input s) + 1 = len (runes target) ->
      len (Input (HandleChar now now' ch s)) = len (runes target)
      /\ Finished (HandleChar now now' ch s) = false)
  /\ (forall t, Finished (Finish t s) = true).
Proof.
  intros Hne Hrun.
  pose proof (run_Target _ _ _ Hrun) as HT. simpl in HT.
  pose proof (run_TimedMode _ _ _ Hrun) as HM. simpl in HM.
  assert (Hwait : awaiting_input s).
  { eapply run_awaiting; [exact Hrun|].
    intros _ _. simpl. apply runes_nonempty. exact Hne. }
  split; [|split; [|split]].
  - intros HF. rewrite <- HT, <- HM. split; [|split].
    + destruct (TimedMode s) eqn:Htm.
      * rewrite HandleChar_timed by exact Htm. rewrite HF.
        split; [discriminate | intros [? _]; discriminate].
      * specialize (Hwait Htm HF).
        destruct (HandleChar_accept now now' ch s HF Hwait) as [_ Hiff].
        rewrite Hiff. tauto.
    + destruct (TimedMode s) eqn:Htm.
      * rewrite HandleChar_timed by exact Htm. rewrite HF.
        split; [discriminate | intros [? _]; discriminate].
      * specialize (Hwait Htm HF).
        destruct (HandleChar_accept now now' ch s HF Hwait) as [E Hiff].
        rewrite E, len_snoc, Hiff. tauto.
    + intros Hlt. apply HandleChar_accept; assumption.
  - intros -> HF calls. apply typeAll_timed; assumption.
  - intros -> HF Hlast. rewrite <- HT in *.
    destruct (HandleChar_accept now now' ch s HF ltac:(lia)) as [E _].
    rewrite E, len_snoc. split; [exact Hlast|].
    rewrite HandleChar_timed by exact HM. exact HF.
  - intros t. unfold Finish. destruct (Finished s) eqn:HF; simpl; [exact HF | reflexivity].
Qed.

Lemma completion_by_mode_witness :
  Finished (HandleChar 30 31 98 (HandleChar 10 11 97 (NewTestState "ab" false 0 1)))
  = true.
Proof.
  apply (proj1 (proj1 (completion_by_mode "ab" false 0 1 [KeyRune 10 11 97]
                  (HandleChar 10 11 97 (NewTestState "ab" false 0 1)) 30 31 98
                  ltac:(discriminate) eq_refl) eq_refl)).
  split; reflexivity.
Defined.

(** C2.  [HandleChar] leaves the input as it is when the session is
    finished or the input already has the length of the target; otherwise
    (the input being within the target, as in every session) it appends
    the rune as given.  Hence typing at most as many runes as the target
    holds into a new session stores exactly those runes, in order. *)
Theorem HandleChar_input (s : TestState) (now now' : Time) (ch : rune) :
  (Finished s = true \/ len (Input s) = len (runes (Target s)) ->
   Input (HandleChar now now' ch s) = Input s)
  /\ (within_target s -> Finished s = false ->
      len (Input s) <> len (runes (Target s)) ->
      Input (HandleChar now now' ch s) = Input s ++ [ch])
  /\ (forall target timedMode timeLimitSec wordCount calls,
      len calls <= len (runes target) ->
      Input (typeAll calls (NewTestState target timedMode timeLimitSec wordCount))
      = map snd calls
      /\ len (Input (typeAll calls (NewTestState target timedMode timeLimitSec wordCount)))
         = len calls).
Proof.
  split; [|split].
  - intros H. apply HandleChar_refuse. destruct H as [H|H]; [left; exact H | right; lia].
  - unfold within_target. intros Hw HF Hne.
    apply HandleChar_accept; [exact HF | lia].
  - intros target tm tl wc calls Hle.
    assert (E : Input (typeAll calls (NewTestState target tm tl wc)) = map snd calls).
    { rewrite typeAll_accept; [reflexivity | reflexivity | simpl; exact Hle]. }
    split; [exact E|]. rewrite E. unfold len. rewrite length_map. reflexivity.
Qed.

Lemma HandleChar_input_witness :
  Input (HandleChar 7 8 120 (NewTestState "abc" true 30 1)) = [] ++ [120].
Proof.
  apply (HandleChar_input (NewTestState "abc" true 30 1) 7 8 120);
    [apply NewTestState_within | reflexivity | discriminate].
Defined.

(** C3.  Every event keeps the input within the target, and none panics;
    so, from construction onward, the length of the input stays between
    zero and the rune length of the target.  Backspace and delete-word
    never reslice below zero: they return normally on every state, also on
    an empty input, which they leave as it is. *)
Theorem input_length_bounds :
  (forall e s, within_target s ->
     exists s', handle e s = Some s' /\ within_target s')
  /\ (forall target timedMode timeLimitSec wordCount es,
     exists s, run es (NewTestState target timedMode timeLimitSec wordCount) = Some s
               /\ 0 <= len (Input s) <= len (runes target))
  /\ (forall s, exists s', HandleBackspace s = Some s'
                /\ 0 <= len (Input s') <= len (Input s)
                /\ (Input s = [] -> s' = s))
  /\ (forall s, exists s', HandleDeleteWord s = Some s'
                /\ 0 <= len (Input s') <= len (Input s)
                /\ (Input s = [] -> s' = s)).
Proof.
  split; [intros e s Hw | split;
    [intros target timedMode timeLimitSec wordCount es | split; intros s]].
  - destruct (handle_total e s) as (s' & E). exists s'. split; [exact E|].
    eapply handle_within; eassumption.
  - destruct (run_total es (NewTestState target timedMode timeLimitSec wordCount))
      as (s & E).
    exists s. split; [exact E|]. split; [apply len_nonneg|].
    pose proof (run_within _ _ _ E (NewTestState_within _ _ _ _)) as Hw.
    unfold within_target in Hw. rewrite (run_Target _ _ _ E) in Hw. exact Hw.
  - rewrite HandleBackspace_eq. eexists. split; [reflexivity|].
    destruct (Finished s || _) eqn:E.
    + pose proof (len_nonneg (Input s)). repeat split; try lia.
    + apply orb_false_elim in E as [_ E]. apply len_eqb_zero in E. simpl.
      pose proof (len_nonneg (removelast (Input s))) as Hpos.
      rewrite len_removelast in * by exact E.
      repeat split; try lia. intros; contradiction.
  - rewrite HandleDeleteWord_eq. eexists. split; [reflexivity|].
    destruct (Finished s || _) eqn:E.
    + pose proof (len_nonneg (Input s)). repeat split; try lia.
    + apply orb_false_elim in E as [_ E]. apply len_eqb_zero in E. simpl.
      pose proof (len_stripSuffix notSpace (stripSuffix isSpace (Input s))).
      pose proof (len_stripSuffix isSpace (Input s)).
      pose proof (len_nonneg (stripSuffix notSpace (stripSuffix isSpace (Input s)))).
      repeat split; try lia. intros; contradiction.
Qed.

Lemma input_length_bounds_witness :
  exists s', handle KeyBackspace (HandleChar 1 2 97 (NewTestState "ab" false 0 1)) = Some s'
             /\ within_target s'.
Proof.
  apply (proj1 input_length_bounds KeyBackspace
           (HandleChar 1 2 97 (NewTestState "ab" false 0 1))).
  unfold within_target. vm_compute. discriminate.
Defined.

(** C4.  [Finished] is terminal.  On a finished session [HandleChar],
    [HandleBackspace], [HandleDeleteWord] and [Finish] return the very same
    state, and so does every sequence of events, so [EndTime] stays as it
    is.  [Finish] sets [Finished] and [EndTime] on an unfinished session
    only, and a second [Finish] changes nothing. *)
Theorem Finished_terminal (s : TestState) :
  (Finished s = true ->
   (forall now now' ch, HandleChar now now' ch s = s)
   /\ HandleBackspace s = Some s
   /\ HandleDeleteWord s = Some s
   /\ (forall now, Finish now s = s)
   /\ (forall es, run es s = Some s))
  /\ (Finished s = false ->
      forall now, Finish now s = set_finished now s
                  /\ Finished (Finish now s) = true
                  /\ EndTime (Finish now s) = now)
  /\ (forall now1 now2, Finish now2 (Finish now1 s) = Finish now1 s).
Proof.
  assert (Hstep : forall s0 e, Finished s0 = true -> handle e s0 = Some s0).
  { intros s0 e HF. destruct e; simpl.
    - unfold HandleChar. rewrite HF. reflexivity.
    - unfold HandleBackspace. rewrite HF. reflexivity.
    - unfold HandleDeleteWord. rewrite HF. reflexivity.
    - unfold Finish. rewrite HF. reflexivity. }
  split; [|split].
  - intros HF. repeat split.
    + intros. unfold HandleChar. rewrite HF. reflexivity.
    + apply (Hstep s KeyBackspace HF).
    + apply (Hstep s KeyCtrlW HF).
    + intros. unfold Finish. rewrite HF. reflexivity.
    + induction es as [|e es IH]; simpl; [reflexivity|].
      rewrite (Hstep s e HF). simpl. exact IH.
  - intros HF now. unfold Finish. rewrite HF. simpl. auto.
  - intros now1 now2. unfold Finish at 1.
    replace (Finished (Finish now1 s)) with true; [reflexivity|].
    unfold Finish. destruct (Finished s) eqn:HF; simpl; auto.
Qed.

Lemma Finished_terminal_witness :
  run [KeyRune 50 51 120; KeyBackspace; KeyCtrlW; TimeUp 90]
      (Finish 40 (HandleChar 10 11 97 (NewTestState "ab" true 30 1)))
  = Some (Finish 40 (HandleChar 10 11 97 (NewTestState "ab" true 30 1))).
Proof.
  apply (proj1 (Finished_terminal
                  (Finish 40 (HandleChar 10 11 97 (NewTestState "ab" true 30 1))))).
  reflexivity.
Defined.

(** C5.  [CorrectChars] returns the number of positions [i] with
    [i < len(input)], [i < len(target)] and [input[i] == target[i]], and
    [WrongChars] the number of those with [input[i] != target[i]]:
    [positions] lists each such position once.  With target "abc" and
    "abd" typed, they return 2 and 1. *)
Theorem chars_counted (s : TestState) :
  CorrectChars s = Some (len (positions true (Input s) (runes (Target s))))
  /\ WrongChars s = Some (len (positions false (Input s) (runes (Target s))))
  /\ (forall same,
      NoDup (positions same (Input s) (runes (Target s)))
      /\ forall i, In i (positions same (Input s) (runes (Target s))) <->
           exists a b, nth_error (Input s) i = Some a
                       /\ nth_error (runes (Target s)) i = Some b
                       /\ (if same then a = b else a <> b))
  /\ CorrectChars (typeAll [(1, 2, 97); (3, 4, 98); (5, 6, 100)]
                     (NewTestState "abc" false 0 1)) = Some 2
  /\ WrongChars (typeAll [(1, 2, 97); (3, 4, 98); (5, 6, 100)]
                   (NewTestState "abc" false 0 1)) = Some 1.
Proof.
  split; [apply CorrectChars_eq|].
  split; [apply WrongChars_eq|].
  split; [|split; reflexivity].
  intros same. split; [apply positions_NoDup|].
  intros i. apply positions_spec.
Qed.

(** C6.  [WPM] returns 0 when the elapsed time in minutes is zero (as it is
    when no time has elapsed, or the session has not started), and
    otherwise the correct characters divided by 5.0 and then by the elapsed
    minutes. *)
Theorem WPM_formula (s : TestState) (now : Time) :
  ((Minutes (Elapsed now s) =? 0)%float = true -> WPM now s = Some 0%float)
  /\ ((Minutes (Elapsed now s) =? 0)%float = false ->
      WPM now s =
      Some (float64_of_int (correctCount (Input s) (runes (Target s))) / 5
            / Minutes (Elapsed now s))%float)
  /\ (Elapsed now s = 0 -> WPM now s = Some 0%float)
  /\ (Started s = false -> WPM now s = Some 0%float).
Proof.
  rewrite WPM_eq. split; [|split; [|split]]; try (intros ->; reflexivity).
  intros H. unfold Elapsed. rewrite H. reflexivity.
Qed.

Lemma WPM_formula_witness :
  WPM 35000000000 abd_session = Some 2%float.
Proof.
  rewrite (proj1 (proj2 (WPM_formula abd_session 35000000000)));
    vm_compute; reflexivity.
Defined.

(** C7.  [Accuracy] returns 100.0 when the input is empty, and otherwise
    the correct characters divided by the length of the input, times
    100.0. *)
Theorem Accuracy_formula (s : TestState) :
  (Input s = [] -> Accuracy s = Some 100%float)
  /\ (Input s <> [] ->
      Accuracy s =
      Some (float64_of_int (correctCount (Input s) (runes (Target s)))
            / float64_of_int (len (Input s)) * 100)%float).
Proof.
  rewrite Accuracy_eq. split.
  - intros ->. reflexivity.
  - intros Hne. rewrite len_eqb_nonempty by exact Hne. reflexivity.
Qed.

Lemma Accuracy_formula_witness :
  Accuracy (NewTestState "abc" false 0 1) = Some 100%float.
Proof.
  apply (proj1 (Accuracy_formula (NewTestState "abc" false 0 1))). reflexivity.
Defined.

(** C8.  [HandleDeleteWord] changes nothing when the session is finished or
    the input is empty.  Otherwise it first removes all trailing spaces and
    then the trailing runes that are no space: it cuts the input to [kept],
    where [input = kept ++ word ++ spaces], [spaces] holds spaces only and
    all the trailing ones (what is before them is empty or ends in a rune
    that is no space), [word] holds no space, and [kept] is empty or ends
    in a space.  There is one such cut only, and the code makes it.  So
    "hello world " and "hello world" become "hello ", and "hello" becomes
    empty. *)
Theorem HandleDeleteWord_spec (s : TestState) :
  (Finished s = true \/ Input s = [] -> HandleDeleteWord s = Some s)
  /\ (Finished s = false -> Input s <> [] ->
      exists kept word spaces,
        HandleDeleteWord s = Some (set_Input kept s)
        /\ Input s = kept ++ word ++ spaces
        /\ Forall (fun r => r = space) spaces
        /\ Forall (fun r => r <> space) word
        /\ (kept = [] \/ exists k, kept = k ++ [space])
        /\ (word = [] -> kept = []))
  /\ (Finished s = false -> Input s <> [] ->
      forall kept word spaces,
        Input s = kept ++ word ++ spaces ->
        Forall (fun r => r = space) spaces ->
        Forall (fun r => r <> space) word ->
        kept = [] \/ (exists k, kept = k ++ [space]) ->
        (word = [] -> kept = []) ->
        HandleDeleteWord s = Some (set_Input kept s))
  /\ (Finished s = false ->
      (Input s = runes "hello world " ->
       HandleDeleteWord s = Some (set_Input (runes "hello ") s))
      /\ (Input s = runes "hello world" ->
          HandleDeleteWord s = Some (set_Input (runes "hello ") s))
      /\ (Input s = runes "hello" ->
          HandleDeleteWord s = Some (set_Input [] s))).
Proof.
  rewrite HandleDeleteWord_eq. split; [|split; [|split]].
  - intros [-> | ->]; [reflexivity|]. rewrite orb_true_r. reflexivity.
  - intros HF Hne. rewrite HF. simpl.
    rewrite len_eqb_nonempty by exact Hne.
    destruct (stripSuffix_split isSpace (Input s)) as (spaces & E1 & Hsp & Hk1).
    destruct (stripSuffix_split notSpace (stripSuffix isSpace (Input s)))
      as (word & E2 & Hw & Hk).
    exists (stripSuffix notSpace (stripSuffix isSpace (Input s))), word, spaces.
    split; [reflexivity|]. split; [|split; [|split; [|split]]].
    + rewrite app_assoc, <- E2. exact E1.
    + eapply Forall_impl; [|exact Hsp]. intros r Hr. apply Z.eqb_eq. exact Hr.
    + eapply Forall_impl; [|exact Hw]. unfold notSpace. intros r Hr ->.
      rewrite Z.eqb_refl in Hr. discriminate.
    + destruct Hk as [Hk | (k & y & Hk & Hy)]; [left; exact Hk | right].
      exists k. rewrite Hk. unfold notSpace in Hy.
      apply negb_false_iff, Z.eqb_eq in Hy. rewrite Hy. reflexivity.
    + intros Hword. rewrite Hword, app_nil_r in E2.
      destruct Hk1 as [Hk1 | (k1 & y1 & Hk1 & Hy1)]; [congruence|].
      destruct Hk as [Hk | (k & y & Hk & Hy)]; [exact Hk|].
      rewrite <- E2, Hk1 in Hk. apply app_inj_tail in Hk as [_ ->].
      unfold notSpace in Hy. unfold isSpace in Hy1. rewrite Hy1 in Hy. discriminate.
  - intros HF Hne kept word spaces E Hsp Hw Hk Hword. rewrite HF. simpl.
    rewrite len_eqb_nonempty by exact Hne. f_equal. f_equal.
    assert (Hsp' : Forall (fun r => isSpace r = true) spaces).
    { eapply Forall_impl; [|exact Hsp]. intros r ->. reflexivity. }
    assert (Hw' : Forall (fun r => notSpace r = true) word).
    { eapply Forall_impl; [|exact Hw]. intros r Hr. unfold notSpace.
      apply negb_true_iff, Z.eqb_neq. exact Hr. }
    rewrite E, app_assoc, stripSuffix_app_all by exact Hsp'.
    assert (E1 : stripSuffix isSpace (kept ++ word) = kept ++ word).
    { destruct (snoc_cases word) as [Hnil | (w & x & Ew)].
      - rewrite (Hword Hnil), Hnil. reflexivity.
      - rewrite Ew, app_assoc. apply stripSuffix_stop.
        rewrite Ew in Hw'. apply Forall_app in Hw' as [_ Hx].
        inversion Hx as [|? ? Hnx _]; subst. unfold notSpace in Hnx.
        apply negb_true_iff in Hnx. exact Hnx. }
    rewrite E1, stripSuffix_app_all by exact Hw'.
    destruct Hk as [-> | (k & ->)]; [reflexivity|].
    apply stripSuffix_stop. reflexivity.
  - intros HF. rewrite HF. simpl. repeat split; intros ->; reflexivity.
Qed.

Lemma HandleDeleteWord_spec_witness :
  HandleDeleteWord (set_Input [97; 32; 32] (NewTestState "a  b" false 0 2))
  = Some (set_Input [] (set_Input [97; 32; 32] (NewTestState "a  b" false 0 2))).
Proof.
  apply (proj1 (proj2 (proj2 (HandleDeleteWord_spec
     (set_Input [97; 32; 32] (NewTestState "a  b" false 0 2)))))
     eq_refl ltac:(discriminate) [] [97] [32; 32]).
  - reflexivity.
  - repeat constructor.
  - repeat constructor. discriminate.
  - left. reflexivity.
  - intros H. discriminate H.
Defined.

(** C9 (the claim does not hold).  Constructing with the empty target
    returns a session like any other, which takes key events and can be
    finished. *)
Lemma NewTestState_empty_target :
  NewTestState "" false 0 0 = mkTestState "" [] 0 0 false false false 0 0 ""
  /\ handle (KeyRune 1 2 97) (NewTestState "" false 0 0)
     = Some (set_started 1 (NewTestState "" false 0 0))
  /\ handle (TimeUp 9) (NewTestState "" false 0 0)
     = Some (set_finished 9 (NewTestState "" false 0 0)).
Proof. repeat split. Qed.

(** C9, amended.  [NewTestState] checks nothing and reports no error: for
    every target, the empty string included, it returns a session that
    holds the target, has an empty input, is neither started nor finished,
    and takes every sequence of events.  Over the empty target the input
    stays empty and no key finishes the session. *)
Theorem NewTestState_unchecked (target : string) (timedMode : bool)
    (timeLimitSec wordCount : Z) :
  Target (NewTestState target timedMode timeLimitSec wordCount) = target
  /\ Input (NewTestState target timedMode timeLimitSec wordCount) = []
  /\ Started (NewTestState target timedMode timeLimitSec wordCount) = false
  /\ Finished (NewTestState target timedMode timeLimitSec wordCount) = false
  /\ (forall es, exists s,
        run es (NewTestState target timedMode timeLimitSec wordCount) = Some s)
  /\ (target = EmptyString ->
      forall es s,
        run es (NewTestState target timedMode timeLimitSec wordCount) = Some s ->
        Input s = []
        /\ ((forall e, In e es -> forall t, e <> TimeUp t) -> Finished s = false)).
Proof.
  repeat (split; [reflexivity|]). split.
  - intros es. apply run_total.
  - intros -> es s Hrun.
    apply (run_empty_target es _ _ Hrun); reflexivity.
Qed.

Lemma NewTestState_unchecked_witness :
  Input (HandleChar 1 2 97 (NewTestState "" true 15 60)) = []
  /\ ((forall e, In e [KeyRune 1 2 97] -> forall t, e <> TimeUp t) ->
      Finished (HandleChar 1 2 97 (NewTestState "" true 15 60)) = false).
Proof.
  apply (proj2 (proj2 (proj2 (proj2 (proj2
    (NewTestState_unchecked "" true 15 60))))) eq_refl [KeyRune 1 2 97]).
  reflexivity.
Defined.

(** C10.  In every state reached from construction, [CorrectChars] and
    [WrongChars] add up to the length of the input, so that, the input not
    being empty, [Accuracy] is correct / (correct + wrong) * 100. *)
Theorem correct_plus_wrong (target : string) (timedMode : bool)
    (timeLimitSec wordCount : Z) (es : list event) (s : TestState) :
  run es (NewTestState target timedMode timeLimitSec wordCount) = Some s ->
  exists correct wrong,
    CorrectChars s = Some correct
    /\ WrongChars s = Some wrong
    /\ correct + wrong = len (Input s)
    /\ (Input s <> [] ->
        Accuracy s =
        Some (float64_of_int correct / float64_of_int (correct + wrong) * 100)%float).
Proof.
  intros Hrun.
  pose proof (run_within _ _ _ Hrun (NewTestState_within _ _ _ _)) as Hw.
  exists (correctCount (Input s) (runes (Target s))),
         (wrongCount (Input s) (runes (Target s))).
  split; [apply CorrectChars_eq|]. split; [apply WrongChars_eq|].
  pose proof (count_partition _ _ Hw) as Hsum.
  split; [exact Hsum|]. intros Hne.
  rewrite Hsum, Accuracy_eq, len_eqb_nonempty by exact Hne. reflexivity.
Qed.

Lemma correct_plus_wrong_witness :
  exists correct wrong,
    CorrectChars abd_session = Some correct
    /\ WrongChars abd_session = Some wrong
    /\ correct + wrong = len (Input abd_session)
    /\ (Input abd_session <> [] ->
        Accuracy abd_session =
        Some (float64_of_int correct / float64_of_int (correct + wrong) * 100)%float).
Proof.
  apply (correct_plus_wrong "abc abc abc" false 0 3
    [KeyRune 5000000000 0 97; KeyRune 6000000000 0 98; KeyRune 7000000000 0 100;
     KeyRune 8000000000 0 32; KeyRune 9000000000 0 97; KeyRune 9500000000 0 98]).
  reflexivity.
Defined.

(** * Further properties of the program *)

(** ** Elapsed time *)

Lemma Sub_mono t1 t2 u : t1 <= t2 -> Sub t1 u <= Sub t2 u.
Proof. unfold Sub. lia. Qed.

Lemma Sub_range t u : minDuration <= Sub t u <= maxDuration.
Proof. unfold Sub, minDuration, maxDuration. lia. Qed.

Lemma Sub_nonneg t u : u <= t -> 0 <= Sub t u.
Proof. unfold Sub, minDuration, maxDuration. lia. Qed.

(** X1.  [Elapsed] does not depend on the clock before the session starts
    and after it is finished; it never decreases when the clock advances;
    and it is always a value of [Duration]. *)
Theorem Elapsed_clock (s : TestState) (now1 now2 : Time) :
  (Started s = false \/ Finished s = true -> Elapsed now1 s = Elapsed now2 s)
  /\ (now1 <= now2 -> Elapsed now1 s <= Elapsed now2 s)
  /\ minDuration <= Elapsed now1 s <= maxDuration.
Proof.
  unfold Elapsed. split; [|split].
  - intros [-> | H]; [reflexivity|]. rewrite H. reflexivity.
  - intros Hle. destruct (Started s); simpl; [|lia].
    destruct (Finished s); [lia | apply Sub_mono; exact Hle].
  - destruct (Started s); simpl; [|unfold minDuration, maxDuration; lia].
    destruct (Finished s); apply Sub_range.
Qed.

Lemma Elapsed_clock_witness :
  Elapsed 20000000000 abd_session <= Elapsed 35000000000 abd_session.
Proof.
  apply (proj1 (proj2 (Elapsed_clock abd_session 20000000000 35000000000))).
  vm_compute. discriminate.
Defined.

Lemma handle_stamped e s s' t :
  handle e s = Some s' -> in_order t e -> stamped t s -> stamped (advance t e) s'.
Proof.
  unfold stamped. destruct e; simpl.
  - intros [= <-] Ht (H1 & H2 & H3).
    unfold HandleChar, Finish, set_finished, set_Input, set_started.
    destruct (Finished s) eqn:HF; simpl.
    { rewrite HF. repeat split; intros; try (specialize (H1 ltac:(assumption)));
        try (specialize (H2 ltac:(assumption))); try lia. auto. }
    destruct (Started s) eqn:HS; simpl;
      destruct (len (Input s) >=? len (runes (Target s))); simpl;
      rewrite ?HF, ?HS; simpl;
      try (destruct (negb (TimedMode s) && _); simpl; rewrite ?HF, ?HS; simpl);
      repeat split; intros; try discriminate;
      try (specialize (H1 ltac:(assumption))); lia.
  - rewrite HandleBackspace_eq. intros [= <-] _ H.
    destruct (Finished s || _); exact H.
  - rewrite HandleDeleteWord_eq. intros [= <-] _ H.
    destruct (Finished s || _); exact H.
  - intros [= <-] Ht (H1 & H2 & H3). unfold Finish, set_finished.
    destruct (Finished s) eqn:HF; simpl.
    + rewrite HF. repeat split; intros; try (specialize (H1 ltac:(assumption)));
        try (specialize (H2 ltac:(assumption))); try lia. auto.
    + repeat split; intros; try (specialize (H1 ltac:(assumption))); lia.
Qed.

Lemma run_stamped es : forall s s' t,
  run es s = Some s' -> chronological t es -> stamped t s ->
  stamped (last_reading t es) s'.
Proof.
  unfold last_reading.
  induction es as [|e es IH]; intros s s' t; simpl.
  - intros [= <-] _ H. exact H.
  - destruct (handle e s) as [s1|] eqn:E; simpl; [|discriminate].
    intros Hrun [He Hes] Hs. eapply IH; [exact Hrun | exact Hes |].
    eapply handle_stamped; eassumption.
Qed.

(** X2.  When the clock never goes backwards, a session that is started
    and finished was started no later than it was finished, and its elapsed
    time, read at any later instant, is not negative. *)
Theorem Elapsed_nonneg (target : string) (timedMode : bool)
    (timeLimitSec wordCount : Z) (t0 : Time) (es : list event) (s : TestState) :
  chronological t0 es ->
  run es (NewTestState target timedMode timeLimitSec wordCount) = Some s ->
  (Started s = true -> Finished s = true -> StartTime s <= EndTime s)
  /\ (forall now, last_reading t0 es <= now -> 0 <= Elapsed now s).
Proof.
  intros Hes Hrun.
  assert (H0 : stamped t0 (NewTestState target timedMode timeLimitSec wordCount)).
  { unfold stamped. simpl. repeat split; discriminate. }
  destruct (run_stamped es _ _ t0 Hrun Hes H0) as (H1 & H2 & H3).
  split; [exact H3|]. intros now Hnow. unfold Elapsed.
  destruct (Started s); simpl; [|lia].
  destruct (Finished s); apply Sub_nonneg; [auto | specialize (H1 eq_refl); lia].
Qed.

Lemma Elapsed_nonneg_witness :
  0 <= Elapsed 50 (Finish 40 (HandleChar 10 11 97 (NewTestState "ab" true 30 1))).
Proof.
  apply (proj2 (Elapsed_nonneg "ab" true 30 1 0 [KeyRune 10 11 97; TimeUp 40]
                  (Finish 40 (HandleChar 10 11 97 (NewTestState "ab" true 30 1)))
                  ltac:(simpl; lia) eq_refl) 50).
  vm_compute. discriminate.
Defined.

(** ** Typing and erasing *)

Lemma set_Input_same s : set_Input (Input s) s = s.
Proof. destruct s. reflexivity. Qed.

Lemma set_Input_twice l1 l2 s : set_Input l1 (set_Input l2 s) = set_Input l1 s.
Proof. reflexivity. Qed.

Lemma geb_false a b : a < b -> (a >=? b) = false.
Proof. intros H. unfold Z.geb. destruct (Z.compare_spec a b); try reflexivity; lia. Qed.

(** X3.  A rune that is accepted without finishing the session is taken
    back by one backspace: the session is as before, except that it has
    started. *)
Theorem HandleBackspace_undo (s : TestState) (now now' : Time) (ch : rune) :
  Finished s = false ->
  len (Input s) < len (runes (Target s)) ->
  TimedMode s = true \/ len (Input s) + 1 < len (runes (Target s)) ->
  HandleBackspace (HandleChar now now' ch s)
  = Some (if Started s then s else set_started now s).
Proof.
  intros HF Hlt Hopen.
  assert (Hcond : negb (TimedMode s) && (len (Input s ++ [ch]) =? len (runes (Target s)))
                  = false).
  { rewrite len_snoc. destruct Hopen as [-> | Hopen]; [reflexivity|].
    apply andb_false_intro2. apply Z.eqb_neq. lia. }
  assert (Hb : forall s1, Finished s1 = false ->
             HandleBackspace (set_Input (Input s1 ++ [ch]) s1) = Some s1).
  { intros s1 H1. rewrite HandleBackspace_eq.
    change (Finished (set_Input (Input s1 ++ [ch]) s1)) with (Finished s1).
    change (Input (set_Input (Input s1 ++ [ch]) s1)) with (Input s1 ++ [ch]).
    rewrite H1, len_snoc. pose proof (len_nonneg (Input s1)).
    replace (len (Input s1) + 1 =? 0) with false by (symmetry; apply Z.eqb_neq; lia).
    cbn [orb]. rewrite removelast_last, set_Input_twice, set_Input_same.
    reflexivity. }
  unfold HandleChar. rewrite HF.
  destruct (Started s) eqn:HS; simpl; rewrite (geb_false _ _ Hlt); unfold append;
    simpl; rewrite Hcond.
  - apply Hb. exact HF.
  - apply (Hb (set_started now s)). exact HF.
Qed.

Lemma HandleBackspace_undo_witness :
  HandleBackspace (HandleChar 7 8 120 (NewTestState "abc" false 0 1))
  = Some (set_started 7 (NewTestState "abc" false 0 1)).
Proof.
  apply (HandleBackspace_undo (NewTestState "abc" false 0 1) 7 8 120);
    [reflexivity | reflexivity | right; reflexivity].
Defined.

Lemma firstn_removelast (l : list rune) :
  removelast l = firstn (length l - 1) l.
Proof.
  destruct (snoc_cases l) as [-> | (l' & x & ->)]; [reflexivity|].
  rewrite removelast_last, length_app. simpl.
  replace (length l' + 1 - 1)%nat with (length l' + 0)%nat by lia.
  rewrite firstn_app_2. simpl. rewrite app_nil_r. reflexivity.
Qed.

Lemma run_backspaces n : forall s,
  Finished s = false ->
  run (repeat KeyBackspace n) s
  = Some (set_Input (firstn (length (Input s) - n) (Input s)) s).
Proof.
  induction n as [|n IH]; intros s HF; simpl.
  - rewrite Nat.sub_0_r, firstn_all, set_Input_same. reflexivity.
  - rewrite HandleBackspace_eq, HF. simpl.
    destruct (len (Input s) =? 0) eqn:E; simpl.
    + rewrite IH by exact HF. apply Z.eqb_eq, len_zero in E. rewrite E. reflexivity.
    + rewrite IH by exact HF. simpl. rewrite set_Input_twice. f_equal. f_equal.
      apply len_eqb_zero in E.
      rewrite firstn_removelast. rewrite length_firstn, firstn_firstn.
      f_equal. lia.
Qed.

(** X4.  On an unfinished session [n] backspaces keep the input without
    its last [n] runes, all of it being erased when [n] is its length or
    more, and change nothing else; no number of backspaces panics. *)
Theorem backspaces_erase (s : TestState) (n : nat) :
  Finished s = false ->
  run (repeat KeyBackspace n) s
  = Some (set_Input (firstn (length (Input s) - n) (Input s)) s)
  /\ ((length (Input s) <= n)%nat ->
      run (repeat KeyBackspace n) s = Some (set_Input [] s)).
Proof.
  intros HF. rewrite run_backspaces by exact HF. split; [reflexivity|].
  intros Hn. replace (length (Input s) - n)%nat with 0%nat by lia. reflexivity.
Qed.

Lemma backspaces_erase_witness :
  run (repeat KeyBackspace 9) abd_session = Some (set_Input [] abd_session).
Proof.
  apply (proj2 (backspaces_erase abd_session 9 eq_refl)). vm_compute. lia.
Defined.

Lemma stripSuffix_prefix c l : stripSuffix c l = firstn (length (stripSuffix c l)) l.
Proof.
  destruct (stripSuffix_split c l) as (gone & E & _).
  rewrite E at 3. rewrite firstn_app, Nat.sub_diag, firstn_all. simpl.
  rewrite app_nil_r. reflexivity.
Qed.

Lemma length_stripSuffix c l : (length (stripSuffix c l) <= length l)%nat.
Proof. pose proof (len_stripSuffix c l). unfold len in *. lia. Qed.

Lemma run_finished es s : Finished s = true -> run es s = Some s.
Proof.
  intros HF. induction es as [|e es IH]; simpl; [reflexivity|].
  replace (handle e s) with (Some s); [exact IH|].
  destruct e; simpl; unfold HandleChar, HandleBackspace, HandleDeleteWord, Finish;
    rewrite HF; reflexivity.
Qed.

(** X5.  Delete-word does what some number of backspaces does, at most one
    per rune of the input. *)
Theorem HandleDeleteWord_as_backspaces (s : TestState) :
  exists n, (n <= length (Input s))%nat
            /\ HandleDeleteWord s = run (repeat KeyBackspace n) s.
Proof.
  set (kept := stripSuffix notSpace (stripSuffix isSpace (Input s))).
  exists (length (Input s) - length kept)%nat. split; [lia|].
  rewrite HandleDeleteWord_eq.
  destruct (Finished s) eqn:HF; simpl.
  { rewrite run_finished by exact HF. reflexivity. }
  rewrite run_backspaces by exact HF.
  assert (Hk : (length kept <= length (Input s))%nat).
  { unfold kept. pose proof (length_stripSuffix notSpace (stripSuffix isSpace (Input s))).
    pose proof (length_stripSuffix isSpace (Input s)). lia. }
  replace (length (Input s) - (length (Input s) - length kept))%nat
    with (length kept) by lia.
  assert (Hpre : kept = firstn (length kept) (Input s)).
  { unfold kept at 1. rewrite stripSuffix_prefix. fold kept.
    rewrite (stripSuffix_prefix isSpace (Input s)). rewrite firstn_firstn.
    f_equal. unfold kept.
    pose proof (length_stripSuffix notSpace (stripSuffix isSpace (Input s))). lia. }
  rewrite <- Hpre.
  destruct (len (Input s) =? 0) eqn:E; [|reflexivity].
  apply Z.eqb_eq, len_zero in E.
  assert (Hk0 : kept = Input s) by (unfold kept; rewrite E; reflexivity).
  rewrite Hk0, set_Input_same. reflexivity.
Qed.

Lemma typeAll_unfinished calls : forall s,
  Finished s = false ->
  len (Input s) + len calls < len (runes (Target s)) ->
  Finished (typeAll calls s) = false.
Proof.
  induction calls as [|c calls IH]; intros s HF Hlt; simpl; [exact HF|].
  change (len (c :: calls)) with (Z.of_nat (S (length calls))) in Hlt.
  rewrite Nat2Z.inj_succ in Hlt. fold (len calls) in Hlt.
  pose proof (len_nonneg calls).
  destruct (HandleChar_accept (fst (fst c)) (snd (fst c)) (snd c) s HF) as [E Hiff]; [lia|].
  apply IH.
  - destruct (Finished (HandleChar (fst (fst c)) (snd (fst c)) (snd c) s)) eqn:HF';
      [|reflexivity].
    destruct Hiff as [Hiff _]. destruct (Hiff eq_refl). lia.
  - rewrite E, len_snoc, HandleChar_Target. lia.
Qed.

(** X6.  Delete-word takes back the word just typed: after typing runes
    none of which is a space, without completing the target, onto an input
    that is empty or ends in a space, the input is what it was before the
    word. *)
Theorem HandleDeleteWord_undoes_word (s : TestState)
    (calls : list (Time * Time * rune)) :
  Finished s = false ->
  len (Input s) + len calls < len (runes (Target s)) ->
  calls <> [] ->
  Forall (fun c => snd c <> space) calls ->
  Input s = [] \/ (exists k, Input s = k ++ [space]) ->
  exists s', HandleDeleteWord (typeAll calls s) = Some s'
             /\ Input s' = Input s /\ Finished s' = false.
Proof.
  intros HF Hlt Hne Hword Hkept.
  pose proof (typeAll_unfinished calls s HF Hlt) as HF'.
  assert (Hin : Input (typeAll calls s) = Input s ++ map snd calls).
  { apply typeAll_accept; [exact HF | lia]. }
  rewrite HandleDeleteWord_eq, HF', Hin. simpl.
  assert (Hlen : (len (Input s ++ map snd calls) =? 0) = false).
  { apply Z.eqb_neq. rewrite len_app. pose proof (len_nonneg (Input s)).
    destruct calls as [|c calls]; [contradiction|].
    unfold len at 2. simpl length. lia. }
  rewrite Hlen. eexists. split; [reflexivity|]. simpl. split; [|exact HF'].
  assert (Hw : Forall (fun r => notSpace r = true) (map snd calls)).
  { apply Forall_map. eapply Forall_impl; [|exact Hword]. intros c Hc.
    unfold notSpace. apply negb_true_iff, Z.eqb_neq. exact Hc. }
  assert (Hw' : exists w x, map snd calls = w ++ [x] /\ isSpace x = false).
  { destruct (snoc_cases (map snd calls)) as [E | (w & x & E)].
    - destruct calls; [contradiction | discriminate].
    - exists w, x. split; [exact E|]. rewrite E in Hw.
      apply Forall_app in Hw as [_ Hx]. inversion Hx as [|? ? Hnx _]; subst.
      unfold notSpace in Hnx. apply negb_true_iff in Hnx. exact Hnx. }
  destruct Hw' as (w & x & Ew & Hx).
  assert (E1 : stripSuffix isSpace (Input s ++ map snd calls) = Input s ++ map snd calls).
  { rewrite Ew, app_assoc. apply stripSuffix_stop. exact Hx. }
  rewrite E1, stripSuffix_app_all by exact Hw.
  destruct Hkept as [-> | (k & ->)]; [reflexivity|].
  apply stripSuffix_stop. unfold notSpace, space. reflexivity.
Qed.

Lemma HandleDeleteWord_undoes_word_witness :
  exists s', HandleDeleteWord
               (typeAll [(8, 9, 100); (10, 11, 101)]
                  (typeAll [(1, 2, 97); (3, 4, 32)] (NewTestState "a bcdef" false 0 2)))
             = Some s'
             /\ Input s' = Input (typeAll [(1, 2, 97); (3, 4, 32)]
                                    (NewTestState "a bcdef" false 0 2))
             /\ Finished s' = false.
Proof.
  apply (HandleDeleteWord_undoes_word
           (typeAll [(1, 2, 97); (3, 4, 32)] (NewTestState "a bcdef" false 0 2))
           [(8, 9, 100); (10, 11, 101)]).
  - reflexivity.
  - reflexivity.
  - discriminate.
  - repeat constructor; discriminate.
  - right. exists [97]. reflexivity.
Defined.

(** ** Starting and completing *)

Lemma handle_started_input e s s' :
  handle e s = Some s' ->
  (Input s <> [] -> Started s = true) -> (Input s' <> [] -> Started s' = true).
Proof.
  destruct e; simpl.
  - intros [= <-] H. unfold HandleChar, Finish, set_finished, set_Input, set_started.
    destruct (Finished s); [exact H|].
    destruct (Started s) eqn:HS; simpl;
      repeat match goal with
             | |- context [if ?b then _ else _] => destruct b; simpl
             end; rewrite ?HS; auto.
  - rewrite HandleBackspace_eq. intros [= <-] H.
    destruct (Finished s || _); [exact H|]. simpl. intros Hne. apply H.
    intros E. rewrite E in Hne. contradiction.
  - rewrite HandleDeleteWord_eq. intros [= <-] H.
    destruct (Finished s || _); [exact H|]. simpl. intros Hne. apply H.
    intros E. rewrite E in Hne. contradiction.
  - intros [= <-] H. unfold Finish. destruct (negb _); exact H.
Qed.

Lemma handle_started e s s' :
  handle e s = Some s' -> Started s = true ->
  Started s' = true /\ StartTime s' = StartTime s.
Proof.
  destruct e; simpl.
  - intros [= <-] HS. unfold HandleChar, Finish, set_finished, set_Input.
    rewrite HS. simpl.
    repeat match goal with
           | |- context [if ?b then _ else _] => destruct b; simpl
           end; auto.
  - rewrite HandleBackspace_eq. intros [= <-] HS.
    destruct (Finished s || _); simpl; auto.
  - rewrite HandleDeleteWord_eq. intros [= <-] HS.
    destruct (Finished s || _); simpl; auto.
  - intros [= <-] HS. unfold Finish. destruct (negb _); simpl; auto.
Qed.

Lemma run_started es : forall s s',
  run es s = Some s' -> Started s = true ->
  Started s' = true /\ StartTime s' = StartTime s.
Proof.
  induction es as [|e es IH]; intros s s'; simpl.
  - intros [= <-]. auto.
  - destruct (handle e s) as [s1|] eqn:E; simpl; [|discriminate].
    intros Hrun HS. destruct (handle_started _ _ _ E HS) as [HS1 <-].
    apply IH; assumption.
Qed.

Lemma run_started_input es : forall s s',
  run es s = Some s' ->
  (Input s <> [] -> Started s = true) -> (Input s' <> [] -> Started s' = true).
Proof.
  induction es as [|e es IH]; intros s s'; simpl.
  - intros [= <-]. auto.
  - destruct (handle e s) as [s1|] eqn:E; simpl; [|discriminate].
    intros Hrun H. eapply IH; [exact Hrun|]. eapply handle_started_input; eassumption.
Qed.

(** X7.  The start is recorded once.  In every state reached from
    construction a non-empty input means the session has started; the first
    [HandleChar] on an unfinished session starts it and stores its clock
    reading, whether or not the rune is accepted; and once started, no
    event changes [Started] or [StartTime]. *)
Theorem Started_once (target : string) (timedMode : bool)
    (timeLimitSec wordCount : Z) (es : list event) (s : TestState) :
  run es (NewTestState target timedMode timeLimitSec wordCount) = Some s ->
  (Input s <> [] -> Started s = true)
  /\ (Started s = false -> Finished s = false ->
      forall now now' ch,
        Started (HandleChar now now' ch s) = true
        /\ StartTime (HandleChar now now' ch s) = now)
  /\ (Started s = true ->
      forall es' s', run es' s = Some s' ->
        Started s' = true /\ StartTime s' = StartTime s).
Proof.
  intros Hrun. split; [|split].
  - eapply run_started_input; [exact Hrun|]. simpl. intros H. contradiction.
  - intros HS HF now now' ch.
    unfold HandleChar, Finish, set_finished, set_Input, set_started.
    rewrite HF, HS. simpl.
    repeat match goal with
           | |- context [if ?b then _ else _] => destruct b; simpl
           end; auto.
  - intros HS es' s' Hrun'. eapply run_started; eassumption.
Qed.

Lemma Started_once_witness :
  Started (HandleChar 5 6 97 (NewTestState "" false 0 0)) = true
  /\ StartTime (HandleChar 5 6 97 (NewTestState "" false 0 0)) = 5.
Proof.
  apply (proj1 (proj2 (Started_once "" false 0 0 [] (NewTestState "" false 0 0) eq_refl))
           eq_refl eq_refl 5 6 97).
Defined.

Lemma handle_key_complete e s s' :
  handle e s = Some s' -> is_key e = true -> TimedMode s = false ->
  awaiting_input s -> complete_if_finished s -> complete_if_finished s'.
Proof.
  unfold complete_if_finished. destruct e; simpl; try discriminate.
  - intros [= <-] _ HT Hw Hc. rewrite HandleChar_Target.
    destruct (Finished s) eqn:HF.
    { destruct (HandleChar_refuse now now' ch s) as [-> _]; auto. }
    specialize (Hw HT HF).
    destruct (HandleChar_accept now now' ch s HF Hw) as [-> Hiff].
    intros HF'. apply Hiff in HF' as [_ E]. rewrite len_snoc. exact E.
  - rewrite HandleBackspace_eq. intros [= <-] _ _ _ Hc.
    destruct (Finished s || _) eqn:E; [exact Hc|]. simpl. intros HF.
    apply orb_false_elim in E as [E _]. congruence.
  - rewrite HandleDeleteWord_eq. intros [= <-] _ _ _ Hc.
    destruct (Finished s || _) eqn:E; [exact Hc|]. simpl. intros HF.
    apply orb_false_elim in E as [E _]. congruence.
Qed.

Lemma run_keys_complete es : forall s s',
  run es s = Some s' -> forallb is_key es = true -> TimedMode s = false ->
  awaiting_input s -> complete_if_finished s -> complete_if_finished s'.
Proof.
  induction es as [|e es IH]; intros s s'; simpl.
  - intros [= <-]. auto.
  - destruct (handle e s) as [s1|] eqn:E; simpl; [|discriminate].
    intros Hrun Hk HT Hw Hc. apply andb_true_iff in Hk as [Hk Hks].
    eapply IH; [exact Hrun | exact Hks | | |].
    + rewrite (handle_TimedMode _ _ _ E). exact HT.
    + eapply handle_awaiting; eassumption.
    + eapply handle_key_complete; eassumption.
Qed.

(** X8.  An untimed session over a non-empty target that receives key
    events only is finished exactly when its input has the length of the
    target. *)
Theorem untimed_finished_iff_complete (target : string)
    (timeLimitSec wordCount : Z) (es : list event) (s : TestState) :
  target <> EmptyString ->
  forallb is_key es = true ->
  run es (NewTestState target false timeLimitSec wordCount) = Some s ->
  (Finished s = true <-> len (Input s) = len (runes target)).
Proof.
  intros Hne Hk Hrun.
  pose proof (run_Target _ _ _ Hrun) as HT. simpl in HT.
  pose proof (run_TimedMode _ _ _ Hrun) as HM. simpl in HM.
  assert (Hw0 : awaiting_input (NewTestState target false timeLimitSec wordCount)).
  { intros _ _. simpl. apply runes_nonempty. exact Hne. }
  pose proof (run_awaiting _ _ _ Hrun Hw0) as Hw.
  assert (Hc : complete_if_finished s).
  { eapply run_keys_complete; [exact Hrun | exact Hk | reflexivity | exact Hw0 |].
    intros H. discriminate. }
  unfold complete_if_finished, awaiting_input in *. rewrite HT in *.
  split; [exact Hc|]. intros E.
  destruct (Finished s) eqn:HF; [reflexivity|].
  specialize (Hw HM eq_refl). lia.
Qed.

Lemma untimed_finished_iff_complete_witness :
  Finished (HandleChar 3 4 98 (HandleChar 1 2 97 (NewTestState "ab" false 0 1))) = true
  <-> len (Input (HandleChar 3 4 98 (HandleChar 1 2 97 (NewTestState "ab" false 0 1))))
      = len (runes "ab").
Proof.
  apply (untimed_finished_iff_complete "ab" 0 1 [KeyRune 1 2 97; KeyRune 3 4 98]);
    [discriminate | reflexivity | reflexivity].
Defined.

(** ** The countdown *)

Lemma Elapsed_frozen s now now2 :
  Finished s = true -> Elapsed now s = Elapsed now2 s.
Proof. intros HF. unfold Elapsed. rewrite HF. reflexivity. Qed.

(** X9.  [TimeRemaining] is the configured limit while the session is
    untimed or has not started.  In a started timed session it is never
    below zero, and once the session is finished it no longer depends on
    the clock. *)
Theorem TimeRemaining_bounds (s : TestState) (now now2 : Time) :
  (TimedMode s = false \/ Started s = false ->
   TimeRemaining now s = float64_of_int (TimeLimitSec s))
  /\ (TimedMode s = true -> Started s = true ->
      (TimeRemaining now s <? 0)%float = false)
  /\ (Finished s = true -> TimeRemaining now s = TimeRemaining now2 s).
Proof.
  unfold TimeRemaining. split; [|split].
  - intros [-> | ->]; [reflexivity|]. rewrite orb_true_r. reflexivity.
  - intros -> ->. simpl.
    destruct (float64_of_int (TimeLimitSec s) - Seconds (Elapsed now s) <? 0)%float
      eqn:E; [reflexivity | exact E].
  - intros HF.
    rewrite (Elapsed_frozen s now now2 HF). reflexivity.
Qed.

Lemma TimeRemaining_bounds_witness :
  PrimFloat.ltb
    (TimeRemaining 15000000000
       (HandleChar 5000000000 0 97 (NewTestState "abc" true 30 12))) 0%float = false.
Proof.
  apply (proj1 (proj2 (TimeRemaining_bounds
     (HandleChar 5000000000 0 97 (NewTestState "abc" true 30 12)) 15000000000 0)));
    reflexivity.
Defined.

Example TimeRemaining_running :
  TimeRemaining 15000000000
    (HandleChar 5000000000 0 97 (NewTestState "abc" true 30 12)) = 20%float.
Proof. reflexivity. Qed.

(** ** The typing box *)

Module TypingBoxProps.
Import TypingBox.

Lemma InputHandler_finished now now' k s :
  Finished s = true -> InputHandler now now' k s = Some (s, []).
Proof. intros HF. unfold InputHandler. rewrite HF. reflexivity. Qed.

(** One press: never a panic; [onFinish] is called exactly when the press
    finishes the session, and then alone. *)
Lemma InputHandler_step now now' k s :
  Finished s = false ->
  exists s' log,
    InputHandler now now' k s = Some (s', log)
    /\ TimedMode s' = TimedMode s
    /\ (Finished s' = true -> log = [onFinish] /\ TimedMode s = false)
    /\ (Finished s' = false -> filter is_onFinish log = []).
Proof.
  intros HF. unfold InputHandler. rewrite HF. destruct k.
  - exists s, [onEscape]. repeat split; auto; congruence.
  - rewrite HandleBackspace_eq, HF. simpl. eexists. exists []. split; [reflexivity|].
    destruct (len (Input s) =? 0); simpl; repeat split; auto; congruence.
  - rewrite HandleBackspace_eq, HF. simpl. eexists. exists []. split; [reflexivity|].
    destruct (len (Input s) =? 0); simpl; repeat split; auto; congruence.
  - rewrite HandleDeleteWord_eq, HF. simpl. eexists. exists []. split; [reflexivity|].
    destruct (len (Input s) =? 0); simpl; repeat split; auto; congruence.
  - destruct (Finished (HandleChar now now' r s)) eqn:HF'.
    + exists (HandleChar now now' r s), [onFinish].
      rewrite HandleChar_TimedMode. repeat split; auto; try congruence.
      destruct (TimedMode s) eqn:HT; [|reflexivity].
      rewrite HandleChar_timed in HF' by exact HT. congruence.
    + exists (HandleChar now now' r s), [].
      rewrite HandleChar_TimedMode. repeat split; auto; congruence.
  - exists s, []. repeat split; auto; congruence.
Qed.

Lemma presses_finished ps : forall s,
  Finished s = true -> presses ps s = Some (s, []).
Proof.
  induction ps as [|p ps IH]; intros s HF; simpl; [reflexivity|].
  rewrite InputHandler_finished by exact HF. simpl. rewrite IH by exact HF.
  reflexivity.
Qed.

Lemma presses_spec ps : forall s,
  Finished s = false ->
  exists s' log,
    presses ps s = Some (s', log)
    /\ (length (filter is_onFinish log) <= 1)%nat
    /\ (Finished s' = true <-> In onFinish log)
    /\ (TimedMode s = true -> Finished s' = false).
Proof.
  induction ps as [|p ps IH]; intros s HF; simpl.
  - exists s, []. repeat split; simpl; auto; try congruence; try contradiction.
  - destruct (InputHandler_step (fst (fst p)) (snd (fst p)) (snd p) s HF)
      as (s1 & log1 & -> & HT1 & Hfin & Hnot).
    simpl. destruct (Finished s1) eqn:HF1.
    + destruct (Hfin eq_refl) as [-> HT]. rewrite presses_finished by exact HF1.
      simpl. exists s1, [onFinish]. repeat split; simpl; auto; congruence.
    + destruct (IH s1 HF1) as (s' & log & -> & Hcount & Hiff & Htimed). simpl.
      exists s', (log1 ++ log). split; [reflexivity|].
      specialize (Hnot eq_refl). split; [|split].
      * rewrite filter_app, Hnot. exact Hcount.
      * rewrite Hiff, in_app_iff. split; [auto|]. intros [H|H]; [|exact H].
        assert (Hin : In onFinish (filter is_onFinish log1))
          by (apply filter_In; split; [exact H | reflexivity]).
        rewrite Hnot in Hin. contradiction.
      * intros HT. apply Htimed. congruence.
Qed.

(** X10.  Whatever keys are pressed, the typing box never panics and
    calls [onFinish] at most once: exactly when the keys have finished the
    session, which in a timed session they never do.  A finished session
    ignores every key and calls nothing. *)
Theorem InputHandler_onFinish_once (ps : list (Time * Time * key)) (s : TestState) :
  (Finished s = true -> presses ps s = Some (s, []))
  /\ (Finished s = false ->
      exists s' log,
        presses ps s = Some (s', log)
        /\ (length (filter is_onFinish log) <= 1)%nat
        /\ (Finished s' = true <-> In onFinish log)
        /\ (TimedMode s = true -> Finished s' = false)).
Proof.
  split; [apply presses_finished | apply presses_spec].
Qed.

Lemma InputHandler_onFinish_once_witness :
  exists s' log,
    presses [(1, 2, Rune 97); (3, 4, Backspace); (5, 6, Rune 97); (7, 8, Rune 98);
             (9, 10, Rune 99)]
      (NewTestState "ab" false 0 1) = Some (s', log)
    /\ (length (filter is_onFinish log) <= 1)%nat
    /\ (Finished s' = true <-> In onFinish log)
    /\ (TimedMode (NewTestState "ab" false 0 1) = true -> Finished s' = false).
Proof.
  apply (proj2 (InputHandler_onFinish_once
    [(1, 2, Rune 97); (3, 4, Backspace); (5, 6, Rune 97); (7, 8, Rune 98);
     (9, 10, Rune 99)] (NewTestState "ab" false 0 1))).
  reflexivity.
Defined.

End TypingBoxProps.

(** ** The word wrap *)

Module TypingBoxLayout.
Import TypingBox.

Lemma scan_step target width i ls col :
  scan target width i ls col =
  if (i <? len target) && (col <? width) then
    c <- index target i ;;
    scan target width (i + 1) (if c =? space then i else ls) (col + 1)
  else Some (i, ls).
Proof.
  funelim (scan target width i ls col); clear Heqcall;
    repeat match goal with
           | E : ?t = _ |- context [?t] => rewrite E; simpl
           end; reflexivity.
Qed.

Lemma index_in_range (l : list rune) i :
  0 <= i < len l -> exists c, index l i = Some c.
Proof.
  intros [H0 H1]. unfold index.
  replace (0 <=? i) with true by (symmetry; apply Z.leb_le; lia).
  replace (i <? len l) with true by (symmetry; apply Z.ltb_lt; lia).
  simpl. destruct (nth_error l (Z.to_nat i)) as [c|] eqn:E; [eauto|].
  apply nth_error_None in E. unfold len in H1. lia.
Qed.

(** What the inner loop returns. *)
Lemma scan_spec target width : forall n i ls col,
  Z.to_nat (width - col) = n -> 0 <= i <= len target -> col <= width ->
  exists i' ls',
    scan target width i ls col = Some (i', ls')
    /\ i <= i' <= len target
    /\ i' - i <= width - col
    /\ (i' < len target -> i' - i = width - col)
    /\ (i < len target -> col < width -> i < i')
    /\ (ls' = ls \/ (i <= ls' < i' /\ index target ls' = Some space)).
Proof.
  induction n as [|n IH]; intros i ls col Hn Hi Hcol; rewrite scan_step.
  - replace (col <? width) with false by (symmetry; apply Z.ltb_ge; lia).
    rewrite andb_false_r. exists i, ls. repeat split; auto; lia.
  - destruct (Z.ltb_spec i (len target)) as [Hlt|Hge]; simpl.
    + replace (col <? width) with true by (symmetry; apply Z.ltb_lt; lia).
      destruct (index_in_range target i) as (c & Ec); [lia|]. rewrite Ec. simpl.
      destruct (IH (i + 1) (if c =? space then i else ls) (col + 1))
        as (i' & ls' & E & H1 & H2 & H3 & H4 & H5); [lia | lia | lia |].
      exists i', ls'. split; [exact E|]. repeat split; try lia.
      destruct H5 as [H5 | [H5 H6]].
      * destruct (Z.eqb_spec c space) as [Hc|Hc]; [|left; exact H5].
        right. subst ls' c. split; [lia | exact Ec].
      * right. split; [lia | exact H6].
    + exists i, ls. repeat split; auto; lia.
Qed.

Lemma chain_app a b c l1 l2 : chain a b l1 -> chain b c l2 -> chain a c (l1 ++ l2).
Proof.
  revert a. induction l1 as [|ln l1 IH]; intros a; simpl.
  - intros ->. auto.
  - intros [E H1] H2. split; [exact E | apply IH; assumption].
Qed.

(** The outer loop, entered at [i] with [lines] so far. *)
Lemma wrapLoop_spec target width : 0 < width -> forall fuel i lines,
  0 <= i <= len target -> (Z.to_nat (len target - i) < fuel)%nat ->
  exists more,
    wrapLoop fuel target width i lines = Done (lines ++ more)
    /\ chain i (len target) more
    /\ Forall (fits target width) more.
Proof.
  intros Hw. induction fuel as [|fuel IH]; intros i lines Hi Hfuel; [lia|].
  cbn [wrapLoop]. destruct (Z.ltb_spec i (len target)) as [Hlt|Hge].
  - destruct (scan_spec target width (Z.to_nat (width - 0)) i (-1) 0 eq_refl)
      as (i1 & lastSpace & -> & H1 & H2 & H3 & H4 & H5); [lia | lia |].
    specialize (H4 Hlt Hw).
    destruct ((i1 <? len target) && (lastSpace >? i)) eqn:Hwrap.
    + apply andb_true_iff in Hwrap as [Hi1 Hls].
      apply Z.ltb_lt in Hi1. apply Z.gtb_lt in Hls.
      destruct H5 as [H5 | [H5 H6]]; [lia|].
      destruct (IH (lastSpace + 1) (append lines (mkLine i (lastSpace + 1))))
        as (more & -> & Hc & Hf); [lia | lia |].
      exists (mkLine i (lastSpace + 1) :: more). unfold append.
      rewrite <- app_assoc. split; [reflexivity|]. split; [simpl; auto|].
      constructor; [|exact Hf]. unfold fits. simpl. split; [lia|].
      intros _. right. replace (lastSpace + 1 - 1) with lastSpace by lia. exact H6.
    + destruct (IH i1 (append lines (mkLine i i1))) as (more & -> & Hc & Hf);
        [lia | lia |].
      exists (mkLine i i1 :: more). unfold append.
      rewrite <- app_assoc. split; [reflexivity|]. split; [simpl; auto|].
      constructor; [|exact Hf]. unfold fits. simpl. split; [lia|].
      intros Hcut. left. lia.
  - exists []. rewrite app_nil_r. split; [reflexivity|]. split; [simpl; lia | constructor].
Qed.

Lemma wrapLoop_more_fuel target width : forall fuel i lines result,
  wrapLoop fuel target width i lines = Done result ->
  forall fuel', (fuel <= fuel')%nat -> wrapLoop fuel' target width i lines = Done result.
Proof.
  induction fuel as [|fuel IH]; intros i lines result H fuel' Hle; [discriminate|].
  destruct fuel' as [|fuel']; [lia|]. cbn [wrapLoop] in *.
  destruct (i <? len target); [|exact H].
  destruct (scan target width i (-1) 0) as [[i1 lastSpace]|]; [|discriminate].
  destruct ((i1 <? len target) && (lastSpace >? i)); apply IH with (fuel' := fuel') in H;
    auto; lia.
Qed.

(** Without the guard [width <= 0] of [Draw] the loop would not end. *)
Lemma wrapLoop_stuck target width : width <= 0 -> forall fuel i lines,
  0 <= i < len target -> wrapLoop fuel target width i lines = OutOfFuel.
Proof.
  intros Hw. induction fuel as [|fuel IH]; intros i lines Hi; [reflexivity|].
  cbn [wrapLoop].
  replace (i <? len target) with true by (symmetry; apply Z.ltb_lt; lia).
  rewrite scan_step.
  replace (0 <? width) with false by (symmetry; apply Z.ltb_ge; lia).
  rewrite andb_false_r.
  replace (-1 >? i) with false by (symmetry; rewrite Z.gtb_ltb; apply Z.ltb_ge; lia).
  rewrite andb_false_r. apply IH. exact Hi.
Qed.

(** X11.  For a positive width the word wrap ends, without panic, after at
    most one turn per rune of the target.  Its lines follow one another
    from the first rune to the last without gap or overlap; each holds
    between one and [width] runes; and a line cut before the end of the
    target is full or ends in a space.  For a width of zero or less, which
    [Draw] turns away, the loop would never end on a non-empty target. *)
Theorem wrap_lines (target : list rune) (width : Z) :
  (0 < width ->
   exists lines,
     (forall fuel, (length target < fuel)%nat ->
        wrapLoop fuel target width 0 [] = Done lines)
     /\ chain 0 (len target) lines
     /\ Forall (fits target width) lines)
  /\ (width <= 0 -> target <> [] ->
      forall fuel, wrapLoop fuel target width 0 [] = OutOfFuel).
Proof.
  split.
  - intros Hw. pose proof (len_nonneg target).
    destruct (wrapLoop_spec target width Hw (S (length target)) 0 [])
      as (lines & E & Hc & Hf); [lia | unfold len; lia |].
    exists lines. split; [|split; assumption].
    intros fuel Hfuel. eapply wrapLoop_more_fuel; [exact E | lia].
  - intros Hw Hne fuel. apply wrapLoop_stuck; [exact Hw|].
    pose proof (len_nonneg target).
    destruct (Z.eq_dec (len target) 0) as [E|]; [|lia].
    apply len_zero in E. contradiction.
Qed.

Lemma wrap_lines_witness :
  exists lines,
    (forall fuel, (length (runes "the quick brown fox") < fuel)%nat ->
       wrapLoop fuel (runes "the quick brown fox") 10 0 [] = Done lines)
    /\ chain 0 (len (runes "the quick brown fox")) lines
    /\ Forall (fits (runes "the quick brown fox") 10) lines.
Proof.
  apply (proj1 (wrap_lines (runes "the quick brown fox") 10)). reflexivity.
Defined.

Example wrap_quick_brown_fox :
  wrapLoop 20 (runes "the quick brown fox") 9 0 []
  = Done [mkLine 0 4; mkLine 4 10; mkLine 10 19].
Proof. reflexivity. Qed.

End TypingBoxLayout.

(** ** The cursor line and the scroll offset *)

Module TypingBoxCursor.
Import TypingBox.

Lemma index_cons (A : Type) (x : A) (l : list A) k :
  0 <= k -> index (x :: l) (k + 1) = index l k.
Proof.
  intros Hk. unfold index, len. cbn [length]. rewrite Nat2Z.inj_succ.
  replace (0 <=? k + 1) with true by (symmetry; apply Z.leb_le; lia).
  replace (0 <=? k) with true by (symmetry; apply Z.leb_le; lia).
  replace (k + 1 <? Z.succ (Z.of_nat (length l))) with (k <? Z.of_nat (length l)).
  - replace (Z.to_nat (k + 1)) with (S (Z.to_nat k)) by lia. reflexivity.
  - destruct (Z.ltb_spec k (Z.of_nat (length l)));
      symmetry; [apply Z.ltb_lt | apply Z.ltb_ge]; lia.
Qed.

Lemma index_some_nonneg (A : Type) (l : list A) k x : index l k = Some x -> 0 <= k.
Proof.
  unfold index. destruct (Z.leb_spec 0 k); [auto | discriminate].
Qed.

Lemma chain_le a b lines :
  chain a b lines -> Forall (fun ln => start ln < end_ ln) lines -> a <= b.
Proof.
  revert a. induction lines as [|ln rest IH]; intros a; simpl.
  - intros ->. lia.
  - intros [<- Hc] Hf. inversion Hf as [|? ? Hln Hrest]; subst.
    specialize (IH _ Hc Hrest). lia.
Qed.

Lemma cursorLoop_spec cursorPos n : forall lines a li,
  chain a n lines -> Forall (fun ln => start ln < end_ ln) lines ->
  a <= cursorPos ->
  (cursorPos < n ->
   exists ln, index lines (cursorLoop cursorPos li lines li - li) = Some ln
              /\ start ln <= cursorPos < end_ ln)
  /\ (n <= cursorPos -> cursorLoop cursorPos li lines li = li + len lines).
Proof.
  induction lines as [|ln rest IH]; intros a li Hc Hf Ha; cbn [cursorLoop].
  - simpl in Hc. subst a. split; [lia|]. intros _. unfold len. simpl. lia.
  - destruct Hc as [Hs Hc]. inversion Hf as [|? ? Hln Hrest]; subst.
    pose proof (chain_le _ _ _ Hc Hrest) as Hend.
    replace (cursorPos >=? start ln) with true
      by (symmetry; rewrite Z.geb_leb; apply Z.leb_le; lia).
    cbn [andb]. destruct (Z.ltb_spec cursorPos (end_ ln)) as [Hin|Hout].
    + split; [|lia]. intros _. exists ln. rewrite Z.sub_diag. split; [reflexivity | lia].
    + replace (cursorPos >=? end_ ln) with true
        by (symmetry; rewrite Z.geb_leb; apply Z.leb_le; lia).
      destruct (IH (end_ ln) (li + 1) Hc Hrest Hout) as [H1 H2]. split.
      * intros Hlt. destruct (H1 Hlt) as (ln' & E & Hpos). exists ln'.
        split; [|exact Hpos].
        pose proof (index_some_nonneg _ _ _ _ E).
        replace (cursorLoop cursorPos (li + 1) rest (li + 1) - li)
          with (cursorLoop cursorPos (li + 1) rest (li + 1) - (li + 1) + 1) by lia.
        rewrite index_cons by lia. exact E.
      * intros Hge. rewrite (H2 Hge). unfold len. cbn [length]. lia.
Qed.

(** X12.  When the lines follow one another from 0 to [n] and none is
    empty, the cursor line found for a position below [n] is the line that
    holds the position; for a position at [n] or beyond, it is the number
    of lines, one past the last line. *)
Theorem cursor_line (lines : list lineInfo) (n cursorPos : Z) :
  chain 0 n lines ->
  Forall (fun ln => start ln < end_ ln) lines ->
  0 <= cursorPos ->
  (cursorPos < n ->
   exists ln, index lines (cursorLoop cursorPos 0 lines 0) = Some ln
              /\ start ln <= cursorPos < end_ ln)
  /\ (n <= cursorPos -> cursorLoop cursorPos 0 lines 0 = len lines).
Proof.
  intros Hc Hf Hpos.
  destruct (cursorLoop_spec cursorPos n lines 0 0 Hc Hf Hpos) as [H1 H2].
  rewrite Z.sub_0_r in H1. split; [exact H1 | exact H2].
Qed.

Lemma cursor_line_witness :
  exists ln,
    index [mkLine 0 4; mkLine 4 10; mkLine 10 19]
          (cursorLoop 7 0 [mkLine 0 4; mkLine 4 10; mkLine 10 19] 0) = Some ln
    /\ start ln <= 7 < end_ ln.
Proof.
  apply (proj1 (cursor_line [mkLine 0 4; mkLine 4 10; mkLine 10 19] 19 7
                  ltac:(simpl; auto)
                  ltac:(repeat constructor)
                  ltac:(lia))).
  reflexivity.
Defined.

Lemma maxTextLines_pos height : 1 <= maxTextLines height.
Proof. unfold maxTextLines. destruct (Z.ltb_spec (height - 3) 1); lia. Qed.

(** X13.  The scroll offset is never negative and keeps the cursor line
    within the [maxTextLines] lines drawn from it. *)
Theorem scroll_window (height cursorLine : Z) :
  0 <= cursorLine ->
  0 <= scrollOffset height cursorLine <= cursorLine
  /\ cursorLine < scrollOffset height cursorLine + maxTextLines height.
Proof.
  intros Hc. unfold scrollOffset. pose proof (maxTextLines_pos height) as Hm.
  set (m := maxTextLines height) in *.
  pose proof (Z.quot_rem' m 2) as Hq.
  pose proof (Z.rem_bound_pos m 2 ltac:(lia) ltac:(lia)) as Hr.
  destruct (Z.geb_spec cursorLine m) as [Hge|Hlt]; [|lia].
  destruct (Z.ltb_spec (cursorLine - Z.quot m 2) 0); lia.
Qed.

Lemma scroll_window_witness :
  0 <= scrollOffset 8 12 <= 12 /\ 12 < scrollOffset 8 12 + maxTextLines 8.
Proof. apply (scroll_window 8 12). lia. Defined.

End TypingBoxCursor.

(** ** The piped text *)

Module TextProps.
Import Text.

Lemma collapseLoop_from text : forall b inSpace,
  collapseLoop text b inSpace = b ++ collapseFrom inSpace text.
Proof.
  induction text as [|r rest IH]; intros b inSpace; simpl.
  - rewrite app_nil_r. reflexivity.
  - destruct (IsSpace r); [destruct inSpace; simpl|]; rewrite IH; unfold append;
      rewrite <- ?app_assoc; reflexivity.
Qed.

Lemma collapse_from text : collapse text = collapseFrom false text.
Proof. unfold collapse. rewrite collapseLoop_from. reflexivity. Qed.

Lemma space_IsSpace : IsSpace space = true.
Proof. reflexivity. Qed.

Lemma collapseFrom_spaces inSpace text :
  Forall (fun r => IsSpace r = true -> r = space) (collapseFrom inSpace text).
Proof.
  revert inSpace. induction text as [|r rest IH]; intros inSpace; simpl; [constructor|].
  destruct (IsSpace r) eqn:E; [destruct inSpace|]; auto.
  constructor; [congruence | apply IH].
Qed.

Lemma collapseFrom_head inSpace text :
  inSpace = true ->
  match collapseFrom inSpace text with
  | a :: _ => a <> space
  | [] => True
  end.
Proof.
  intros ->. induction text as [|r rest IH]; simpl; [exact I|].
  destruct (IsSpace r) eqn:E; [exact IH|]. intros ->. discriminate.
Qed.

Lemma collapseFrom_single inSpace text : single_spaced (collapseFrom inSpace text).
Proof.
  revert inSpace. induction text as [|r rest IH]; intros inSpace; [exact I|].
  cbn [collapseFrom]. destruct (IsSpace r) eqn:E; [destruct inSpace; [apply IH|]|].
  - pose proof (collapseFrom_head true rest eq_refl) as Hh. specialize (IH true).
    destruct (collapseFrom true rest) as [|a l]; [exact I|].
    split; [|exact IH]. intros [_ Ha]. contradiction.
  - specialize (IH false).
    destruct (collapseFrom false rest) as [|a l]; [exact I|].
    split; [|exact IH]. intros [Hr _]. subst r. discriminate.
Qed.

Lemma collapseFrom_visible inSpace text :
  filter visible (collapseFrom inSpace text) = filter visible text.
Proof.
  revert inSpace. induction text as [|r rest IH]; intros inSpace; simpl; [reflexivity|].
  unfold visible at 2. destruct (IsSpace r) eqn:E; simpl.
  - destruct inSpace; [apply IH|]. simpl. apply IH.
  - unfold visible at 1. rewrite E. simpl. f_equal. apply IH.
Qed.

(** A text already in the normal form is left as it is. *)
Lemma collapseFrom_fixed : forall l inSpace,
  Forall (fun r => IsSpace r = true -> r = space) l ->
  single_spaced l ->
  (inSpace = true -> match l with a :: _ => a <> space | [] => True end) ->
  collapseFrom inSpace l = l.
Proof.
  induction l as [|a l IH]; intros inSpace Hsp Hss Hhd; [reflexivity|].
  inversion Hsp as [|? ? Ha Hl]; subst. cbn [collapseFrom].
  assert (Hss' : single_spaced l) by (destruct l; [exact I | apply Hss]).
  destruct (IsSpace a) eqn:E.
  - specialize (Ha eq_refl). subst a.
    destruct inSpace; [specialize (Hhd eq_refl); contradiction|].
    f_equal. apply IH; [exact Hl | exact Hss' |].
    intros _. destruct l as [|b l]; [exact I|].
    destruct Hss as [Hn _]. intros ->. apply Hn. auto.
  - f_equal. apply IH; [exact Hl | exact Hss' | discriminate].
Qed.

Lemma collapseFrom_last inSpace pre r :
  IsSpace r = false ->
  collapseFrom inSpace (pre ++ [r]) = collapseFrom inSpace pre ++ [r].
Proof.
  intros Hr. revert inSpace. induction pre as [|a pre IH]; intros inSpace; simpl.
  - rewrite Hr. reflexivity.
  - destruct (IsSpace a); [destruct inSpace|]; simpl; rewrite IH; reflexivity.
Qed.

(** X14.  The text that [readPipedInput] builds from the runes of the
    piped input holds no whitespace but single spaces: every whitespace
    rune in it is a space, no two spaces are side by side, and the other
    runes are those of the input in order.  It is empty only for an empty
    input; it starts, and ends, with the first, and last, rune of an input
    that starts, and ends, with no whitespace; and building it again from
    the result changes nothing. *)
Theorem collapse_normal (text : list rune) :
  Forall (fun r => IsSpace r = true -> r = space) (collapse text)
  /\ single_spaced (collapse text)
  /\ filter visible (collapse text) = filter visible text
  /\ (collapse text = [] <-> text = [])
  /\ (forall r rest, text = r :: rest -> IsSpace r = false ->
      exists rest', collapse text = r :: rest')
  /\ (forall pre r, text = pre ++ [r] -> IsSpace r = false ->
      exists pre', collapse text = pre' ++ [r])
  /\ collapse (collapse text) = collapse text.
Proof.
  rewrite !collapse_from. repeat split.
  - apply collapseFrom_spaces.
  - apply collapseFrom_single.
  - apply collapseFrom_visible.
  - destruct text as [|r rest]; [reflexivity|]. simpl.
    destruct (IsSpace r); discriminate.
  - intros ->. reflexivity.
  - intros r rest -> Hr. simpl. rewrite Hr. eauto.
  - intros pre r -> Hr. rewrite collapseFrom_last by exact Hr. eauto.
  - apply collapseFrom_fixed;
      [apply collapseFrom_spaces | apply collapseFrom_single | discriminate].
Qed.

Lemma collapse_normal_witness :
  exists rest', collapse [104; 105; 9; 10; 32; 121; 111; 8195; 33] = 104 :: rest'.
Proof.
  apply (proj1 (proj2 (proj2 (proj2 (proj2
    (collapse_normal [104; 105; 9; 10; 32; 121; 111; 8195; 33])))))
    104 [105; 9; 10; 32; 121; 111; 8195; 33]); reflexivity.
Defined.

Example collapse_hi_yo :
  collapse [104; 105; 9; 10; 32; 121; 111; 8195; 33] = [104; 105; 32; 121; 111; 32; 33].
Proof. reflexivity. Qed.

End TextProps.

(** ** The random words *)

Module WordsProps.
Import Text.

Lemma index_In (A : Type) (l : list A) k x : index l k = Some x -> In x l.
Proof.
  unfold index. destruct ((0 <=? k) && (k <? len l)); [|discriminate].
  apply nth_error_In.
Qed.

Lemma index_Some (A : Type) (l : list A) k :
  0 <= k < len l -> exists x, index l k = Some x.
Proof.
  intros [H0 H1]. unfold index.
  replace (0 <=? k) with true by (symmetry; apply Z.leb_le; lia).
  replace (k <? len l) with true by (symmetry; apply Z.ltb_lt; lia).
  simpl. destruct (nth_error l (Z.to_nat k)) as [x|] eqn:E; [eauto|].
  apply nth_error_None in E. unfold len in H1. lia.
Qed.

Lemma fillWords_some wordList rnd : forall count i words,
  fillWords wordList rnd i count = Some words ->
  length words = count /\ Forall (fun w => In w wordList) words.
Proof.
  induction count as [|count IH]; intros i words; simpl.
  - intros [= <-]. split; [reflexivity | constructor].
  - unfold Intn. destruct (len wordList <=? 0); [discriminate|]. simpl.
    destruct (index wordList (rnd i)) as [w|] eqn:Ew; [|discriminate]. simpl.
    destruct (fillWords wordList rnd (S i) count) as [rest|] eqn:Er; [|discriminate].
    simpl. intros [= <-]. destruct (IH _ _ Er) as [Hlen Hin].
    split; [simpl; congruence|]. constructor; [|exact Hin].
    eapply index_In. exact Ew.
Qed.

Lemma fillWords_total wordList rnd :
  (forall i, 0 <= rnd i < len wordList) ->
  forall count i, exists words, fillWords wordList rnd i count = Some words.
Proof.
  intros Hrnd. induction count as [|count IH]; intros i; simpl; [eauto|].
  unfold Intn. pose proof (Hrnd i) as Hi.
  replace (len wordList <=? 0) with false by (symmetry; apply Z.leb_gt; lia).
  simpl. destruct (index_Some _ wordList (rnd i) Hi) as (w & ->). simpl.
  destruct (IH (S i)) as (rest & ->). simpl. eauto.
Qed.

Lemma concat_nonempty sep w ws : w <> EmptyString -> String.concat sep (w :: ws) <> EmptyString.
Proof.
  intros Hw. destruct w as [|c w]; [contradiction|].
  simpl. destruct ws; discriminate.
Qed.

(** X15.  [pickWords] panics for a negative count, for a count beyond
    what [make] can allocate, and for a positive count when the word list
    is empty.  For a count [n] that [make] grants, when the numbers drawn
    are indices of the list, it returns [n] words of the list joined by
    single spaces; and whenever it returns for [n >= 1] from a list without
    empty word, the text is not empty.  For [n = 0] the text is empty. *)
Theorem pickWords_words (wordList : list string) (rnd : nat -> Z) (limit n : Z) :
  (n < 0 \/ limit < n -> pickWords wordList rnd limit n = None)
  /\ (1 <= n -> wordList = [] -> pickWords wordList rnd limit n = None)
  /\ (n = 0 -> 0 <= limit -> pickWords wordList rnd limit n = Some EmptyString)
  /\ (0 <= n <= limit -> (forall i, 0 <= rnd i < len wordList) ->
      exists words,
        pickWords wordList rnd limit n = Some (String.concat " " words)
        /\ length words = Z.to_nat n
        /\ Forall (fun w => In w wordList) words)
  /\ (1 <= n -> Forall (fun w => w <> EmptyString) wordList ->
      forall t, pickWords wordList rnd limit n = Some t ->
        t <> EmptyString /\ n <= limit).
Proof.
  unfold pickWords. split; [|split; [|split; [|split]]].
  - intros Hn.
    replace ((n <? 0) || (n >? limit)) with true; [reflexivity|].
    symmetry. apply orb_true_iff. rewrite Z.ltb_lt, Z.gtb_ltb, Z.ltb_lt. exact Hn.
  - intros Hn ->. destruct ((n <? 0) || (n >? limit)); [reflexivity|].
    destruct (Z.to_nat n) as [|k] eqn:E; [lia|]. reflexivity.
  - intros -> Hl.
    replace (0 >? limit) with false by (symmetry; rewrite Z.gtb_ltb; apply Z.ltb_ge; lia).
    reflexivity.
  - intros Hn Hrnd.
    replace (n <? 0) with false by (symmetry; apply Z.ltb_ge; lia).
    replace (n >? limit) with false by (symmetry; rewrite Z.gtb_ltb; apply Z.ltb_ge; lia).
    destruct (fillWords_total wordList rnd Hrnd (Z.to_nat n) 0%nat) as (words & E).
    cbn [orb]. rewrite E. simpl. exists words. split; [reflexivity|].
    apply (fillWords_some _ _ _ _ _ E).
  - intros Hn Hne t.
    destruct (Z.ltb_spec n 0) as [|_]; [lia|].
    destruct (Z.gtb_spec n limit) as [|Hl]; [discriminate|]. cbn [orb].
    destruct (fillWords wordList rnd 0 (Z.to_nat n)) as [words|] eqn:E; [|discriminate].
    simpl. intros [= <-]. split; [|exact Hl].
    destruct (fillWords_some _ _ _ _ _ E) as [Hlen Hin].
    destruct words as [|w ws]; [simpl in Hlen; lia|].
    apply concat_nonempty. inversion Hin as [|? ? Hw _]; subst.
    rewrite Forall_forall in Hne. apply Hne. exact Hw.
Qed.

Lemma pickWords_words_witness :
  exists words,
    pickWords ["the"; "of"; "and"]%string (fun i => Z.of_nat (i mod 3))
      17592186044416 4
    = Some (String.concat " " words)
    /\ length words = Z.to_nat 4
    /\ Forall (fun w => In w ["the"; "of"; "and"]%string) words.
Proof.
  apply (proj1 (proj2 (proj2 (proj2
    (pickWords_words ["the"; "of"; "and"]%string (fun i => Z.of_nat (i mod 3))
       17592186044416 4)))));
    [lia|].
  intros i. pose proof (Nat.mod_upper_bound i 3 ltac:(lia)).
  unfold len. cbn [length]. lia.
Defined.

Example pickWords_four :
  pickWords ["the"; "of"; "and"]%string (fun i => Z.of_nat (i mod 3))
    17592186044416 4
  = Some "the of and the"%string.
Proof. reflexivity. Qed.

Example pickWords_too_many :
  pickWords ["the"; "of"; "and"]%string (fun i => Z.of_nat (i mod 3))
    17592186044416 4611686018427387904
  = None.
Proof. reflexivity. Qed.

End WordsProps.

(** ** The graph *)

Module GraphProps.
Import Graph.

Section Store.
Context {A : Type}.
Implicit Types (l : list A) (v : A).

Lemma index_inv l i v : index l i = Some v -> 0 <= i < len l.
Proof.
  unfold index. destruct (Z.leb_spec 0 i); simpl; [|discriminate].
  destruct (Z.ltb_spec i (len l)); [lia | discriminate].
Qed.

Lemma index_range l i : 0 <= i < len l -> exists v, index l i = Some v.
Proof.
  intros [H0 H1]. unfold index.
  replace (0 <=? i) with true by (symmetry; apply Z.leb_le; lia).
  replace (i <? len l) with true by (symmetry; apply Z.ltb_lt; lia).
  simpl. destruct (nth_error l (Z.to_nat i)) as [v|] eqn:E; [eauto|].
  apply nth_error_None in E. unfold len in H1. lia.
Qed.

Lemma store_range l i v : 0 <= i < len l -> exists l', store l i v = Some l'.
Proof.
  intros [H0 H1]. unfold store.
  replace (0 <=? i) with true by (symmetry; apply Z.leb_le; lia).
  replace (i <? len l) with true by (symmetry; apply Z.ltb_lt; lia).
  simpl. eauto.
Qed.

Lemma store_len l i v l' : store l i v = Some l' -> len l' = len l.
Proof.
  unfold store. destruct (Z.leb_spec 0 i) as [H0|]; simpl; [|discriminate].
  destruct (Z.ltb_spec i (len l)) as [H1|]; [|discriminate].
  intros [= <-]. unfold len in *.
  rewrite length_app, length_cons, length_firstn, length_skipn. lia.
Qed.

Lemma store_index l i v l' j :
  store l i v = Some l' -> index l' j = if j =? i then Some v else index l j.
Proof.
  intros Hst. pose proof (store_len _ _ _ _ Hst) as Hlen. revert Hst.
  unfold store. destruct (Z.leb_spec 0 i) as [H0|]; simpl; [|discriminate].
  destruct (Z.ltb_spec i (len l)) as [H1|]; [|discriminate].
  intros [= E]. unfold index. rewrite Hlen.
  destruct ((0 <=? j) && (j <? len l)) eqn:Hj.
  - apply andb_true_iff in Hj as [Hj0 Hj1].
    apply Z.leb_le in Hj0. apply Z.ltb_lt in Hj1. unfold len in *.
    assert (Hf : length (firstn (Z.to_nat i) l) = Z.to_nat i)
      by (rewrite length_firstn; lia).
    destruct (Z.eqb_spec j i) as [->|Hne]; subst l'.
    + rewrite nth_error_app2 by lia. rewrite Hf, Nat.sub_diag. reflexivity.
    + destruct (Z.lt_ge_cases j i) as [Hlt|Hge].
      * rewrite nth_error_app1 by lia. rewrite nth_error_firstn.
        replace (Z.to_nat j <? Z.to_nat i)%nat with true
          by (symmetry; apply Nat.ltb_lt; lia).
        reflexivity.
      * rewrite nth_error_app2 by lia. rewrite Hf.
        replace (Z.to_nat j - Z.to_nat i)%nat
          with (S (Z.to_nat j - Z.to_nat (i + 1))) by lia.
        cbn [nth_error]. rewrite nth_error_skipn. f_equal. lia.
  - destruct (Z.eqb_spec j i) as [->|]; [|reflexivity].
    apply andb_false_iff in Hj as [Hj|Hj];
      [apply Z.leb_gt in Hj | apply Z.ltb_ge in Hj]; lia.
Qed.

End Store.

Lemma In_index (A : Type) (l : list A) x : In x l -> exists i, index l i = Some x.
Proof.
  intros H. apply In_nth_error in H as [n Hn]. exists (Z.of_nat n).
  assert (Hlt : (n < length l)%nat) by (apply nth_error_Some; congruence).
  unfold index, len.
  replace (0 <=? Z.of_nat n) with true by (symmetry; apply Z.leb_le; lia).
  replace (Z.of_nat n <? Z.of_nat (length l)) with true
    by (symmetry; apply Z.ltb_lt; lia).
  simpl. rewrite Nat2Z.id. exact Hn.
Qed.

Lemma index_is_In (A : Type) (l : list A) i x : index l i = Some x -> In x l.
Proof.
  unfold index. destruct ((0 <=? i) && (i <? len l)); [|discriminate].
  apply nth_error_In.
Qed.

Lemma rect_index w grid :
  rect w grid <-> (forall r row, index grid r = Some row -> len row = w).
Proof.
  unfold rect. rewrite Forall_forall. split.
  - intros H r row E. apply H. eapply index_is_In. exact E.
  - intros H row Hin. destruct (In_index _ _ _ Hin) as [i E]. eapply H. exact E.
Qed.

Lemma quot_bounds a k n : 0 < k -> 0 <= a < k * n -> 0 <= Z.quot a k < n.
Proof.
  intros Hk [H0 H1]. pose proof (Z.quot_rem' a k) as Hq.
  pose proof (Z.rem_bound_pos a k H0 Hk) as Hr. nia.
Qed.

Lemma brailleDots_range subX subY :
  0 <= subX < 2 -> 0 <= subY < 4 ->
  exists dots dot, index brailleDots subY = Some dots /\ index dots subX = Some dot.
Proof.
  intros HX HY.
  assert (Hy : subY = 0 \/ subY = 1 \/ subY = 2 \/ subY = 3) by lia.
  assert (Hx : subX = 0 \/ subX = 1) by lia.
  destruct Hy as [-> | [-> | [-> | ->]]]; destruct Hx as [-> | ->];
    eexists; eexists; split; reflexivity.
Qed.

(** A dot inside the grid. *)
Lemma setBrailleDot_inside grid w dotX dotY :
  rect w grid -> 0 <= dotX < 2 * w -> 0 <= dotY < 4 * len grid ->
  exists dots dot old grid',
    index brailleDots (Z.rem dotY 4) = Some dots
    /\ index dots (Z.rem dotX 2) = Some dot
    /\ cell grid (Z.quot dotY 4) (Z.quot dotX 2) = Some old
    /\ setBrailleDot grid dotX dotY = Some grid'
    /\ rect w grid' /\ len grid' = len grid
    /\ forall r c,
         cell grid' r c =
         if (r =? Z.quot dotY 4) && (c =? Z.quot dotX 2) then Some (Z.lor old dot)
         else cell grid r c.
Proof.
  intros Hrect HX HY.
  pose proof (quot_bounds dotX 2 w ltac:(lia) HX) as Hcol.
  pose proof (quot_bounds dotY 4 (len grid) ltac:(lia) HY) as Hrow.
  pose proof (Z.rem_bound_pos dotX 2 ltac:(lia) ltac:(lia)) as HsubX.
  pose proof (Z.rem_bound_pos dotY 4 ltac:(lia) ltac:(lia)) as HsubY.
  destruct (brailleDots_range _ _ HsubX HsubY) as (dots & dot & Edots & Edot).
  destruct (index_range grid 0 ltac:(lia)) as (row0 & Erow0).
  destruct (index_range grid (Z.quot dotY 4) Hrow) as (row & Erow).
  pose proof (proj1 (rect_index w grid) Hrect) as Hlen.
  pose proof (Hlen _ _ Erow0) as Hlen0. pose proof (Hlen _ _ Erow) as Hlenr.
  destruct (index_range row (Z.quot dotX 2) ltac:(lia)) as (old & Eold).
  destruct (store_range row (Z.quot dotX 2) (Z.lor old dot) ltac:(lia)) as (row' & Est).
  destruct (store_range grid (Z.quot dotY 4) row' Hrow) as (grid' & Egr).
  exists dots, dot, old, grid'.
  split; [exact Edots|]. split; [exact Edot|].
  split; [unfold cell; rewrite Erow; exact Eold|].
  assert (Hset : setBrailleDot grid dotX dotY = Some grid').
  { unfold setBrailleDot.
    replace (Z.quot dotY 4 <? 0) with false by (symmetry; apply Z.ltb_ge; lia).
    replace (Z.quot dotY 4 >=? len grid) with false
      by (symmetry; rewrite Z.geb_leb; apply Z.leb_gt; lia).
    replace (Z.quot dotX 2 <? 0) with false by (symmetry; apply Z.ltb_ge; lia).
    cbn [orb]. rewrite Erow0. cbn [bind].
    replace (Z.quot dotX 2 >=? len row0) with false
      by (symmetry; rewrite Z.geb_leb; apply Z.leb_gt; lia).
    rewrite Edots. cbn [bind]. rewrite Edot. cbn [bind]. rewrite Erow. cbn [bind].
    rewrite Eold. cbn [bind]. rewrite Est. cbn [bind]. exact Egr. }
  split; [exact Hset|].
  assert (Hidx : forall r, index grid' r
                 = if r =? Z.quot dotY 4 then Some row' else index grid r).
  { intros r. apply (store_index _ _ _ _ r Egr). }
  split; [|split].
  - apply rect_index. intros r rw. rewrite Hidx.
    destruct (r =? Z.quot dotY 4); [|apply Hlen].
    intros [= <-]. rewrite (store_len _ _ _ _ Est). exact Hlenr.
  - apply (store_len _ _ _ _ Egr).
  - intros r c. unfold cell. rewrite Hidx.
    destruct (Z.eqb_spec r (Z.quot dotY 4)) as [->|Hr]; cbn [bind andb]; [|reflexivity].
    rewrite (store_index _ _ _ _ c Est), Erow. reflexivity.
Qed.

(** A dot beside the grid. *)
Lemma setBrailleDot_outside grid w dotX dotY :
  rect w grid -> 0 <= dotX -> 0 <= dotY ->
  2 * w <= dotX \/ 4 * len grid <= dotY ->
  setBrailleDot grid dotX dotY = Some grid.
Proof.
  intros Hrect HX HY Hout. unfold setBrailleDot.
  pose proof (Z.quot_rem' dotX 2) as HqX.
  pose proof (Z.rem_bound_pos dotX 2 HX ltac:(lia)) as HrX.
  pose proof (Z.quot_rem' dotY 4) as HqY.
  pose proof (Z.rem_bound_pos dotY 4 HY ltac:(lia)) as HrY.
  replace (Z.quot dotY 4 <? 0) with false by (symmetry; apply Z.ltb_ge; lia).
  replace (Z.quot dotX 2 <? 0) with false by (symmetry; apply Z.ltb_ge; lia).
  destruct (Z.geb_spec (Z.quot dotY 4) (len grid)) as [Hge|Hlt]; [reflexivity|].
  cbn [orb].
  destruct (index_range grid 0) as (row0 & Erow0);
    [pose proof (len_nonneg grid); lia|].
  rewrite Erow0. cbn [bind].
  pose proof (proj1 (rect_index w grid) Hrect _ _ Erow0) as Hlen0.
  replace (Z.quot dotX 2 >=? len row0) with true; [reflexivity|].
  symmetry. rewrite Z.geb_leb. apply Z.leb_le. lia.
Qed.

Lemma setBrailleDot_total grid w dotX dotY :
  rect w grid -> 0 <= dotX -> 0 <= dotY ->
  exists grid', setBrailleDot grid dotX dotY = Some grid'
                /\ rect w grid' /\ len grid' = len grid.
Proof.
  intros Hrect HX HY.
  destruct (Z.lt_ge_cases dotX (2 * w)) as [Hx|Hx];
    destruct (Z.lt_ge_cases dotY (4 * len grid)) as [Hy|Hy];
    try (exists grid; split; [apply (setBrailleDot_outside grid w); auto; lia | auto]).
  destruct (setBrailleDot_inside grid w dotX dotY Hrect) as
    (_ & _ & _ & grid' & _ & _ & _ & E & Hr & Hl & _); [lia | lia |].
  exists grid'. auto.
Qed.

(** X16.  On a grid whose rows all have [w] cells, [setBrailleDot] with
    coordinates that are not negative never panics and keeps the size of
    the grid: a dot beside the grid changes nothing, and a dot inside it
    or-s one bit of the braille table into the cell at row [dotY / 4] and
    column [dotX / 2] and changes no other cell.  With [dotX = -1], or
    [-4 < dotY < 0], and the other coordinate inside a non-empty grid, the
    bounds test lets the dot through (the division truncates to 0) and the
    braille table is read at a negative index: a panic. *)
Theorem setBrailleDot_spec (grid : list (list rune)) (w dotX dotY : Z) :
  rect w grid ->
  (0 <= dotX -> 0 <= dotY ->
   (2 * w <= dotX \/ 4 * len grid <= dotY -> setBrailleDot grid dotX dotY = Some grid)
   /\ (dotX < 2 * w -> dotY < 4 * len grid ->
       exists dots dot old grid',
         index brailleDots (Z.rem dotY 4) = Some dots
         /\ index dots (Z.rem dotX 2) = Some dot
         /\ cell grid (Z.quot dotY 4) (Z.quot dotX 2) = Some old
         /\ setBrailleDot grid dotX dotY = Some grid'
         /\ rect w grid' /\ len grid' = len grid
         /\ forall r c,
              cell grid' r c =
              if (r =? Z.quot dotY 4) && (c =? Z.quot dotX 2)
              then Some (Z.lor old dot) else cell grid r c))
  /\ (0 < w -> 0 < len grid ->
      (dotX = -1 /\ 0 <= dotY < 4 * len grid)
      \/ (-4 < dotY < 0 /\ 0 <= dotX < 2 * w) ->
      setBrailleDot grid dotX dotY = None).
Proof.
  intros Hrect. split.
  - intros HX HY. split.
    + apply (setBrailleDot_outside grid w); assumption.
    + intros Hx Hy. apply setBrailleDot_inside; [assumption | lia | lia].
  - intros Hw Hg Hedge. unfold setBrailleDot.
    destruct (index_range grid 0 ltac:(lia)) as (row0 & Erow0).
    pose proof (proj1 (rect_index w grid) Hrect _ _ Erow0) as Hlen0.
    destruct Hedge as [[-> HY] | [HY HX]].
    + pose proof (quot_bounds dotY 4 (len grid) ltac:(lia) HY) as Hrow.
      pose proof (Z.rem_bound_pos dotY 4 ltac:(lia) ltac:(lia)) as HsubY.
      replace (Z.quot dotY 4 <? 0) with false by (symmetry; apply Z.ltb_ge; lia).
      replace (Z.quot dotY 4 >=? len grid) with false
        by (symmetry; rewrite Z.geb_leb; apply Z.leb_gt; lia).
      change (Z.quot (-1) 2) with 0. change (Z.rem (-1) 2) with (-1).
      cbn [orb Z.ltb Z.compare]. rewrite Erow0. cbn [bind].
      replace (0 >=? len row0) with false
        by (symmetry; rewrite Z.geb_leb; apply Z.leb_gt; lia).
      destruct (brailleDots_range 0 (Z.rem dotY 4) ltac:(lia) HsubY) as (dots & _ & -> & _).
      reflexivity.
    + pose proof (quot_bounds dotX 2 w ltac:(lia) HX) as Hcol.
      assert (Hq : Z.quot dotY 4 = 0 /\ Z.rem dotY 4 = dotY).
      { assert (Hc : dotY = -1 \/ dotY = -2 \/ dotY = -3) by lia.
        destruct Hc as [-> | [-> | ->]]; split; reflexivity. }
      destruct Hq as [-> ->].
      replace (0 >=? len grid) with false
        by (symmetry; rewrite Z.geb_leb; apply Z.leb_gt; lia).
      replace (Z.quot dotX 2 <? 0) with false by (symmetry; apply Z.ltb_ge; lia).
      cbn [orb Z.ltb Z.compare]. rewrite Erow0. cbn [bind].
      replace (Z.quot dotX 2 >=? len row0) with false
        by (symmetry; rewrite Z.geb_leb; apply Z.leb_gt; lia).
      replace (index brailleDots dotY) with (@None (list rune)); [reflexivity|].
      unfold index. replace (0 <=? dotY) with false by (symmetry; apply Z.leb_gt; lia).
      reflexivity.
Qed.

Lemma setBrailleDot_spec_witness : setBrailleDot [[0; 0]; [0; 0]] (-1) 5 = None.
Proof.
  apply (proj2 (setBrailleDot_spec [[0; 0]; [0; 0]] 2 (-1) 5
                  ltac:(repeat constructor)));
    [lia | reflexivity | left; split; [reflexivity | unfold len; simpl; lia]].
Defined.

Example setBrailleDot_cell :
  setBrailleDot [[0; 0]; [0; 0]] 3 5 = Some [[0; 0]; [0; 16]].
Proof. reflexivity. Qed.

Lemma path_head p q pts : path p q pts -> exists rest, pts = p :: rest.
Proof.
  destruct pts as [|a [|b rest]]; simpl; [contradiction | |];
    intros [-> _]; eauto.
Qed.

Lemma wrap_small z : - 2 ^ 63 <= z < 2 ^ 63 -> wrap z = z.
Proof.
  intros H. unfold wrap. rewrite Z.mod_small by lia. lia.
Qed.

Section Bresenham.
Variables (X0 Y0 x1 y1 dx dy sx sy : Z).
Hypothesis (Hdx : 0 <= dx) (Hdy : 0 <= dy).
Hypothesis (Hdx60 : dx <= 2 ^ 60) (Hdy60 : dy <= 2 ^ 60).
Hypothesis (Hsx : sx = 1 \/ sx = -1) (Hsy : sy = 1 \/ sy = -1).
Hypothesis (Hx1 : x1 = X0 + sx * dx) (Hy1 : y1 = Y0 + sy * dy).
Hypothesis (HX0 : - 2 ^ 59 <= X0 <= 2 ^ 59) (HY0 : - 2 ^ 59 <= Y0 <= 2 ^ 59).
Hypothesis (Hx1r : - 2 ^ 59 <= x1 <= 2 ^ 59) (Hy1r : - 2 ^ 59 <= y1 <= 2 ^ 59).

Lemma plotLoop_turn fuel grid x y err :
  plotLoop (S fuel) grid x y x1 y1 dx dy sx sy err =
  match setBrailleDot grid x y with
  | None => Panic
  | Some g =>
    if (x =? x1) && (y =? y1) then Done g
    else
      plotLoop fuel g
        (if wrap (2 * err) >? wrap (- dy) then wrap (x + sx) else x)
        (if wrap (2 * err) <? dx then wrap (y + sy) else y)
        x1 y1 dx dy sx sy
        (if wrap (2 * err) <? dx
         then wrap ((if wrap (2 * err) >? wrap (- dy) then wrap (err - dy) else err)
                    + dx)
         else (if wrap (2 * err) >? wrap (- dy) then wrap (err - dy) else err))
  end.
Proof. reflexivity. Qed.

(** Within these bounds no operation of a turn wraps around. *)
Lemma plotLoop_turn_small fuel grid x y err :
  - 2 ^ 59 <= x <= 2 ^ 59 -> - 2 ^ 59 <= y <= 2 ^ 59 ->
  - 2 * dy <= err <= 2 * dx ->
  plotLoop (S fuel) grid x y x1 y1 dx dy sx sy err =
  match setBrailleDot grid x y with
  | None => Panic
  | Some g =>
    if (x =? x1) && (y =? y1) then Done g
    else
      plotLoop fuel g
        (if 2 * err >? - dy then x + sx else x)
        (if 2 * err <? dx then y + sy else y)
        x1 y1 dx dy sx sy
        (if 2 * err <? dx
         then (if 2 * err >? - dy then err - dy else err) + dx
         else (if 2 * err >? - dy then err - dy else err))
  end.
Proof.
  intros Hx Hy Herr. rewrite plotLoop_turn.
  rewrite (wrap_small (2 * err)) by lia.
  rewrite (wrap_small (- dy)) by lia.
  rewrite (wrap_small (err - dy)) by lia.
  rewrite (wrap_small (x + sx)) by (destruct Hsx as [-> | ->]; lia).
  rewrite (wrap_small (y + sy)) by (destruct Hsy as [-> | ->]; lia).
  destruct (setBrailleDot grid x y) as [g|]; [|reflexivity].
  destruct ((x =? x1) && (y =? y1)); [reflexivity|].
  f_equal. destruct (2 * err <? dx); [|reflexivity].
  destruct (2 * err >? - dy); apply wrap_small; lia.
Qed.

Lemma box_point a b :
  0 <= a <= dx -> 0 <= b <= dy ->
  in_box (X0, Y0) (x1, y1) (X0 + sx * a, Y0 + sy * b).
Proof.
  intros Ha Hb. unfold in_box. simpl. subst x1 y1.
  destruct Hsx as [-> | ->]; destruct Hsy as [-> | ->]; lia.
Qed.

Lemma box_small a b :
  0 <= a <= dx -> 0 <= b <= dy ->
  - 2 ^ 59 <= X0 + sx * a <= 2 ^ 59 /\ - 2 ^ 59 <= Y0 + sy * b <= 2 ^ 59.
Proof.
  intros Ha Hb. pose proof (box_point a b Ha Hb) as [Hbx Hby].
  simpl in Hbx, Hby. lia.
Qed.

(** One turn away from the end point, given the rest of the line. *)
Lemma plotLoop_go n :
  (forall m, (m < n)%nat -> forall a b,
     0 <= a <= dx -> 0 <= b <= dy -> Z.to_nat (dx - a + (dy - b)) = m ->
     - 2 * dy <= dx - dy - a * dy + b * dx <= 2 * dx ->
     exists pts,
       path (X0 + sx * a, Y0 + sy * b) (x1, y1) pts
       /\ Forall (in_box (X0, Y0) (x1, y1)) pts
       /\ (length pts <= S m)%nat
       /\ forall fuel grid, (m < fuel)%nat ->
            plotLoop fuel grid (X0 + sx * a) (Y0 + sy * b) x1 y1 dx dy sx sy
              (dx - dy - a * dy + b * dx)
            = match setDots pts grid with
              | Some g => Done g
              | None => Panic
              end) ->
  forall a b,
  0 <= a <= dx -> 0 <= b <= dy -> Z.to_nat (dx - a + (dy - b)) = n ->
  - 2 * dy <= dx - dy - a * dy + b * dx <= 2 * dx ->
  in_box (X0, Y0) (x1, y1) (X0 + sx * a, Y0 + sy * b) ->
  a <> dx \/ b <> dy ->
  exists pts,
    path (X0 + sx * a, Y0 + sy * b) (x1, y1) pts
    /\ Forall (in_box (X0, Y0) (x1, y1)) pts
    /\ (length pts <= S n)%nat
    /\ forall fuel grid, (n < fuel)%nat ->
         plotLoop fuel grid (X0 + sx * a) (Y0 + sy * b) x1 y1 dx dy sx sy
           (dx - dy - a * dy + b * dx)
         = match setDots pts grid with
           | Some g => Done g
           | None => Panic
           end.
Proof.
  intros IH a b Ha Hb Hn Herr Hbox Hnot.
  pose proof (box_small a b Ha Hb) as [Hxs Hys].
  set (err := dx - dy - a * dy + b * dx) in *.
  set (a' := if 2 * err >? - dy then a + 1 else a).
  set (b' := if 2 * err <? dx then b + 1 else b).
  assert (Fx : 2 * err > - dy -> a < dx).
  { intros H. destruct (Z.eq_dec a dx) as [E|]; [|lia].
    assert (b < dy) by lia. assert (0 <= dx * (dy - 1 - b)) by nia.
    unfold err in H. subst a. nia. }
  assert (Fy : 2 * err < dx -> b < dy).
  { intros H. destruct (Z.eq_dec b dy) as [E|]; [|lia].
    assert (a < dx) by lia. assert (0 <= dy * (dx - 1 - a)) by nia.
    unfold err in H. subst b. nia. }
  assert (Fm : 2 * err > - dy \/ 2 * err < dx) by lia.
  assert (Ha' : a <= a' <= dx /\ a' <= a + 1).
  { unfold a'. destruct (Z.gtb_spec (2 * err) (- dy)); lia. }
  assert (Hb' : b <= b' <= dy /\ b' <= b + 1).
  { unfold b'. destruct (Z.ltb_spec (2 * err) dx); lia. }
  assert (Hmove : a' <> a \/ b' <> b).
  { unfold a', b'. destruct (Z.gtb_spec (2 * err) (- dy));
      destruct (Z.ltb_spec (2 * err) dx); lia. }
  assert (Ex : (if 2 * err >? - dy then X0 + sx * a + sx else X0 + sx * a)
               = X0 + sx * a').
  { unfold a'. destruct (2 * err >? - dy); ring. }
  assert (Ey : (if 2 * err <? dx then Y0 + sy * b + sy else Y0 + sy * b)
               = Y0 + sy * b').
  { unfold b'. destruct (2 * err <? dx); ring. }
  assert (Eerr : (if 2 * err <? dx
                  then (if 2 * err >? - dy then err - dy else err) + dx
                  else (if 2 * err >? - dy then err - dy else err))
                 = dx - dy - a' * dy + b' * dx).
  { unfold a', b'. destruct (2 * err <? dx); destruct (2 * err >? - dy);
      unfold err; ring. }
  assert (Herr' : - 2 * dy <= dx - dy - a' * dy + b' * dx <= 2 * dx).
  { rewrite <- Eerr. destruct (Z.ltb_spec (2 * err) dx);
      destruct (Z.gtb_spec (2 * err) (- dy)); lia. }
  destruct (IH (Z.to_nat (dx - a' + (dy - b'))) ltac:(lia) a' b'
              ltac:(lia) ltac:(lia) eq_refl Herr')
    as (pts & Hpath & Hin & Hlen & Hrun).
  exists ((X0 + sx * a, Y0 + sy * b) :: pts). split; [|split; [|split]].
  - destruct (path_head _ _ _ Hpath) as (rest & ->).
    cbn [path]. split; [reflexivity|]. cbn [fst snd].
    split; [|split; [|split; [|exact Hpath]]].
    + destruct Hsx as [-> | ->]; lia.
    + destruct Hsy as [-> | ->]; lia.
    + intros [= E1 E2].
      destruct Hsx as [Es | Es]; destruct Hsy as [Et | Et]; rewrite Es, Et in *; lia.
  - constructor; assumption.
  - simpl. lia.
  - intros fuel grid Hfuel. destruct fuel as [|fuel]; [lia|].
    rewrite plotLoop_turn_small by assumption. cbn [setDots fst snd].
    destruct (setBrailleDot grid (X0 + sx * a) (Y0 + sy * b)) as [g|]; [|reflexivity].
    cbn [bind].
    replace ((X0 + sx * a =? x1) && (Y0 + sy * b =? y1)) with false.
    + rewrite Ex, Ey, Eerr. apply Hrun. lia.
    + symmetry. apply andb_false_iff. rewrite !Z.eqb_neq. subst x1 y1.
      destruct Hsx as [Es | Es]; destruct Hsy as [Et | Et]; rewrite Es, Et; lia.
Qed.

(** The loop after [a] steps in x and [b] steps in y. *)
Lemma plotLoop_spec : forall n a b,
  0 <= a <= dx -> 0 <= b <= dy -> Z.to_nat (dx - a + (dy - b)) = n ->
  - 2 * dy <= dx - dy - a * dy + b * dx <= 2 * dx ->
  exists pts,
    path (X0 + sx * a, Y0 + sy * b) (x1, y1) pts
    /\ Forall (in_box (X0, Y0) (x1, y1)) pts
    /\ (length pts <= S n)%nat
    /\ forall fuel grid, (n < fuel)%nat ->
         plotLoop fuel grid (X0 + sx * a) (Y0 + sy * b) x1 y1 dx dy sx sy
           (dx - dy - a * dy + b * dx)
         = match setDots pts grid with
           | Some g => Done g
           | None => Panic
           end.
Proof.
  intros n. induction n as [n IH] using lt_wf_ind. intros a b Ha Hb Hn Herr.
  pose proof (box_point a b Ha Hb) as Hbox.
  destruct (Z.eq_dec a dx) as [Ea|Na]; [destruct (Z.eq_dec b dy) as [Eb|Nb]|].
  - (* at the end point *)
    exists [(X0 + sx * a, Y0 + sy * b)]. split; [|split; [|split]].
    + simpl. split; [reflexivity|]. subst. reflexivity.
    + constructor; [exact Hbox | constructor].
    + simpl. lia.
    + intros fuel grid Hfuel. destruct fuel as [|fuel]; [lia|].
      rewrite plotLoop_turn. cbn [setDots fst snd].
      destruct (setBrailleDot grid (X0 + sx * a) (Y0 + sy * b)); [|reflexivity].
      cbn [bind]. subst a b x1 y1. rewrite !Z.eqb_refl. reflexivity.
  - (* x done, y not *)
    apply (plotLoop_go n IH a b Ha Hb Hn Herr Hbox). right. exact Nb.
  - apply (plotLoop_go n IH a b Ha Hb Hn Herr Hbox). left. exact Na.
Qed.

End Bresenham.

Lemma abs_Zabs x : - 2 ^ 63 < x -> abs x = Z.abs x.
Proof.
  intros H. unfold abs. destruct (Z.ltb_spec x 0); [|lia].
  rewrite wrap_small by lia. lia.
Qed.

Lemma clampInt_bounds v lo hi : lo <= hi -> lo <= clampInt v lo hi <= hi.
Proof.
  intros H. unfold clampInt. destruct (Z.ltb_spec v lo); [lia|].
  destruct (Z.gtb_spec v hi); lia.
Qed.

Lemma setDots_total w : forall pts grid,
  rect w grid -> Forall (fun p => 0 <= fst p /\ 0 <= snd p) pts ->
  exists grid', setDots pts grid = Some grid' /\ rect w grid' /\ len grid' = len grid.
Proof.
  induction pts as [|p pts IH]; intros grid Hrect Hpts; simpl; [eauto|].
  inversion Hpts as [|? ? [Hx Hy] Hrest]; subst.
  destruct (setBrailleDot_total grid w (fst p) (snd p) Hrect Hx Hy)
    as (g1 & -> & Hr1 & Hl1).
  simpl. destruct (IH g1 Hr1 Hrest) as (g2 & -> & Hr2 & Hl2).
  exists g2. repeat split; auto. congruence.
Qed.

(** The dots of a line whose end points lie within [2^59] of the origin. *)
Lemma plotBresenham_points (x0 y0 x1 y1 : Z) :
  - 2 ^ 59 <= x0 <= 2 ^ 59 -> - 2 ^ 59 <= y0 <= 2 ^ 59 ->
  - 2 ^ 59 <= x1 <= 2 ^ 59 -> - 2 ^ 59 <= y1 <= 2 ^ 59 ->
  exists pts,
    path (x0, y0) (x1, y1) pts
    /\ Forall (in_box (x0, y0) (x1, y1)) pts
    /\ (length pts <= S (Z.to_nat (Z.abs (x1 - x0) + Z.abs (y1 - y0))))%nat
    /\ forall fuel grid,
         (Z.to_nat (Z.abs (x1 - x0) + Z.abs (y1 - y0)) < fuel)%nat ->
         plotBresenham fuel grid x0 y0 x1 y1
         = match setDots pts grid with
           | Some g => Done g
           | None => Panic
           end.
Proof.
  intros Bx0 By0 Bx1 By1.
  set (sx := if x0 >? x1 then -1 else 1).
  set (sy := if y0 >? y1 then -1 else 1).
  assert (Hsx : sx = 1 \/ sx = -1) by (unfold sx; destruct (x0 >? x1); auto).
  assert (Hsy : sy = 1 \/ sy = -1) by (unfold sy; destruct (y0 >? y1); auto).
  assert (Hx1 : x1 = x0 + sx * Z.abs (x1 - x0)).
  { unfold sx. destruct (Z.gtb_spec x0 x1); lia. }
  assert (Hy1 : y1 = y0 + sy * Z.abs (y1 - y0)).
  { unfold sy. destruct (Z.gtb_spec y0 y1); lia. }
  destruct (plotLoop_spec x0 y0 x1 y1 (Z.abs (x1 - x0)) (Z.abs (y1 - y0)) sx sy
              ltac:(lia) ltac:(lia) ltac:(lia) ltac:(lia) Hsx Hsy Hx1 Hy1
              Bx0 By0 Bx1 By1
              (Z.to_nat (Z.abs (x1 - x0) + Z.abs (y1 - y0))) 0 0
              ltac:(lia) ltac:(lia) ltac:(f_equal; lia) ltac:(lia))
    as (pts & Hpath & Hbox & Hlen & Hrun).
  exists pts.
  replace (x0 + sx * 0) with x0 in * by ring.
  replace (y0 + sy * 0) with y0 in * by ring.
  split; [exact Hpath|]. split; [exact Hbox|]. split; [exact Hlen|].
  intros fuel grid Hfuel. unfold plotBresenham.
  rewrite (wrap_small (x1 - x0)), (wrap_small (y1 - y0)) by lia.
  rewrite !abs_Zabs by lia. rewrite wrap_small by lia.
  fold sx sy. rewrite <- (Hrun fuel grid Hfuel). f_equal. ring.
Qed.

Lemma last_default (A : Type) (l : list A) : forall x d1 d2,
  last (x :: l) d1 = last (x :: l) d2.
Proof.
  induction l as [|y l IH]; intros x d1 d2; [reflexivity|].
  change (last (y :: l) d1 = last (y :: l) d2). apply IH.
Qed.

Lemma path_last p q : forall pts, path p q pts -> last pts p = q.
Proof.
  intros pts. revert p. induction pts as [|a pts IH]; intros p; [contradiction|].
  destruct pts as [|b rest].
  - intros [_ E]. exact E.
  - intros (_ & _ & _ & _ & H). specialize (IH b H).
    change (last (a :: b :: rest) p) with (last (b :: rest) p).
    rewrite <- IH. apply last_default.
Qed.

(** X17.  For end points whose coordinates lie between [-2^59] and [2^59],
    where the 64-bit arithmetic of the loop does not wrap around,
    [plotBresenham] ends within [|x1 - x0| + |y1 - y0| + 1] turns.  The
    dots it sets, in order, start at [(x0, y0)], end at [(x1, y1)], move by
    at most one dot in each direction from one to the next, and stay
    between the two end points in both coordinates; a panic can only come
    from setting one of these dots. *)
Theorem plotBresenham_line (x0 y0 x1 y1 : Z) :
  - 2 ^ 59 <= x0 <= 2 ^ 59 -> - 2 ^ 59 <= y0 <= 2 ^ 59 ->
  - 2 ^ 59 <= x1 <= 2 ^ 59 -> - 2 ^ 59 <= y1 <= 2 ^ 59 ->
  exists pts,
    path (x0, y0) (x1, y1) pts
    /\ hd (x1, y1) pts = (x0, y0)
    /\ last pts (x0, y0) = (x1, y1)
    /\ Forall (in_box (x0, y0) (x1, y1)) pts
    /\ (length pts <= S (Z.to_nat (Z.abs (x1 - x0) + Z.abs (y1 - y0))))%nat
    /\ forall fuel grid,
         (Z.to_nat (Z.abs (x1 - x0) + Z.abs (y1 - y0)) < fuel)%nat ->
         plotBresenham fuel grid x0 y0 x1 y1
         = match setDots pts grid with
           | Some g => Done g
           | None => Panic
           end.
Proof.
  intros Bx0 By0 Bx1 By1.
  destruct (plotBresenham_points x0 y0 x1 y1 Bx0 By0 Bx1 By1)
    as (pts & Hpath & Hbox & Hlen & Hrun).
  exists pts. split; [exact Hpath|]. split; [|split].
  - destruct (path_head _ _ _ Hpath) as (rest & ->). reflexivity.
  - apply path_last. exact Hpath.
  - auto.
Qed.

Lemma plotBresenham_line_witness :
  exists pts,
    path (0, 7) (3, 2) pts
    /\ hd (3, 2) pts = (0, 7)
    /\ last pts (0, 7) = (3, 2)
    /\ Forall (in_box (0, 7) (3, 2)) pts
    /\ (length pts <= S (Z.to_nat (Z.abs (3 - 0) + Z.abs (2 - 7))))%nat
    /\ forall fuel grid,
         (Z.to_nat (Z.abs (3 - 0) + Z.abs (2 - 7)) < fuel)%nat ->
         plotBresenham fuel grid 0 7 3 2
         = match setDots pts grid with
           | Some g => Done g
           | None => Panic
           end.
Proof. apply (plotBresenham_line 0 7 3 2); lia. Defined.

(** X18.  As [Draw] calls it: between end points clamped by [clampInt]
    to [0 .. hiX] and [0 .. hiY], with [hiX] and [hiY] at most [2^59], on a
    grid whose rows have equal length, [plotBresenham] ends within
    [hiX + hiY + 1] turns without panic, and the grid keeps its size. *)
Theorem plotBresenham_clamped (grid : list (list rune)) (w hiX hiY : Z)
    (vx0 vy0 vx1 vy1 : Z) (fuel : nat) :
  rect w grid -> 0 <= hiX <= 2 ^ 59 -> 0 <= hiY <= 2 ^ 59 ->
  (Z.to_nat (hiX + hiY) < fuel)%nat ->
  exists grid',
    plotBresenham fuel grid (clampInt vx0 0 hiX) (clampInt vy0 0 hiY)
      (clampInt vx1 0 hiX) (clampInt vy1 0 hiY) = Done grid'
    /\ rect w grid' /\ len grid' = len grid.
Proof.
  intros Hrect HX HY Hfuel.
  pose proof (clampInt_bounds vx0 0 hiX ltac:(lia)) as B0.
  pose proof (clampInt_bounds vy0 0 hiY ltac:(lia)) as B1.
  pose proof (clampInt_bounds vx1 0 hiX ltac:(lia)) as B2.
  pose proof (clampInt_bounds vy1 0 hiY ltac:(lia)) as B3.
  set (x0 := clampInt vx0 0 hiX) in *. set (y0 := clampInt vy0 0 hiY) in *.
  set (x1 := clampInt vx1 0 hiX) in *. set (y1 := clampInt vy1 0 hiY) in *.
  destruct (plotBresenham_points x0 y0 x1 y1 ltac:(lia) ltac:(lia) ltac:(lia) ltac:(lia))
    as (pts & _ & Hbox & _ & Hrun).
  rewrite (Hrun fuel grid) by lia.
  destruct (setDots_total w pts grid Hrect) as (g & -> & Hr & Hl); [|eauto].
  eapply Forall_impl; [|exact Hbox]. intros p [Hpx Hpy]. simpl in Hpx, Hpy. lia.
Qed.

Lemma plotBresenham_clamped_witness :
  exists grid',
    plotBresenham 13 [[0; 0; 0]; [0; 0; 0]] (clampInt (-4) 0 5) (clampInt 99 0 7)
      (clampInt 3 0 5) (clampInt 2 0 7) = Done grid'
    /\ rect 3 grid' /\ len grid' = len [[0; 0; 0]; [0; 0; 0]].
Proof.
  apply (plotBresenham_clamped [[0; 0; 0]; [0; 0; 0]] 3 5 7 (-4) 99 3 2 13
           ltac:(repeat constructor) ltac:(lia) ltac:(lia) ltac:(simpl; lia)).
Defined.

Example plotBresenham_diagonal :
  plotBresenham 12 [[0; 0; 0]; [0; 0; 0]] 0 7 3 2
  = Done [[0; 96; 0]; [112; 1; 0]].
Proof. reflexivity. Qed.

(** Beyond the bounds the arithmetic wraps around: on the level line from
    (0, -4) towards (2^62, -4), which lies above the grid, [2 * err] wraps
    to [-2^63], the second dot is (0, -3), off the line, and setting it
    panics. *)
Example plotBresenham_wraps :
  plotBresenham 2 [[0]] 0 (-4) (2 ^ 62) (-4) = Panic.
Proof. reflexivity. Qed.

Example plotBresenham_level :
  plotBresenham 4 [[0]] 0 (-4) 2 (-4) = Done [[0]].
Proof. reflexivity. Qed.

End GraphProps.

(** ** The command line *)

Module ArgsProps.
Import Args.

Lemma wrap64_small z : - 2 ^ 63 <= z < 2 ^ 63 -> wrap64 z = z.
Proof.
  intros H. unfold wrap64. rewrite Z.mod_small by lia. lia.
Qed.

(** X19.  Whatever [Atoi] answers, when [parseArgs] returns, the mode is
    "menu" (no argument), "history" or "test".  Outside "test" the three
    other results are zero.  A "test" by words has a word count of at least
    1 and no time limit.  A timed "test" has a limit [n >= 1] and a word
    count of [4 * n] in 64-bit arithmetic: that is [4 * n >= 4] when
    [n < 2^61], but for [n = 2^62] the product wraps around to 0 words. *)
Theorem parseArgs_results (Atoi : string -> option Z) (args : list string) :
  (forall mode timedMode timeLimitSec wordCount,
     parseArgs Atoi args = Return mode timedMode timeLimitSec wordCount ->
     (mode = "menu"%string /\ args = []
      /\ timedMode = false /\ timeLimitSec = 0 /\ wordCount = 0)
     \/ (mode = "history"%string
         /\ timedMode = false /\ timeLimitSec = 0 /\ wordCount = 0)
     \/ (mode = "test"%string
         /\ timedMode = false /\ timeLimitSec = 0 /\ 1 <= wordCount)
     \/ (mode = "test"%string
         /\ timedMode = true /\ 1 <= timeLimitSec
         /\ wordCount = wrap64 (timeLimitSec * 4)
         /\ (timeLimitSec < 2 ^ 61 -> wordCount = 4 * timeLimitSec)))
  /\ (forall a0 a1 rest, args = a0 :: a1 :: rest ->
      a0 = "time"%string \/ a0 = "t"%string ->
      Atoi a1 = Some (2 ^ 62) ->
      parseArgs Atoi args = Return "test" true (2 ^ 62) 0).
Proof.
  split.
  - intros mode tm tl wc. unfold parseArgs.
    destruct args as [|a0 rest].
    { intros [= <- <- <- <-]. left. repeat split. }
    destruct ((a0 =? "time")%string || (a0 =? "t")%string).
    { destruct rest as [|a1 rest]; [discriminate|].
      destruct (Atoi a1) as [n|]; [|discriminate].
      destruct (Z.leb_spec n 0) as [|Hn]; [discriminate|].
      intros [= <- <- <- <-]. right. right. right.
      repeat split; try lia.
      intros Hsmall. rewrite wrap64_small by lia. ring. }
    destruct ((a0 =? "words")%string || (a0 =? "w")%string).
    { destruct rest as [|a1 rest]; [discriminate|].
      destruct (Atoi a1) as [n|]; [|discriminate].
      destruct (Z.leb_spec n 0) as [|Hn]; [discriminate|].
      intros [= <- <- <- <-]. right. right. left. repeat split. lia. }
    destruct ((a0 =? "history")%string || (a0 =? "h")%string); [|discriminate].
    intros [= <- <- <- <-]. right. left. repeat split.
  - intros a0 a1 rest -> Ha0 Ha1. unfold parseArgs.
    destruct Ha0 as [-> | ->]; simpl; rewrite Ha1; reflexivity.
Qed.

Lemma parseArgs_results_witness :
  parseArgs (fun _ => Some (2 ^ 62)) ["t"; "4611686018427387904"]%string
  = Return "test" true (2 ^ 62) 0.
Proof.
  apply (proj2 (parseArgs_results (fun _ => Some (2 ^ 62))
                  ["t"; "4611686018427387904"]%string)
           "t"%string "4611686018427387904"%string []);
    [reflexivity | right; reflexivity | reflexivity].
Defined.

End ArgsProps.

(** ** The runes drawn *)

Lemma index_in_range_cells (l : list rune) i :
  0 <= i < len l -> exists c, index l i = Some c.
Proof.
  intros [H0 H1]. unfold index.
  replace (0 <=? i) with true by (symmetry; apply Z.leb_le; lia).
  replace (i <? len l) with true by (symmetry; apply Z.ltb_lt; lia).
  simpl. destruct (nth_error l (Z.to_nat i)) as [c|] eqn:E; [eauto|].
  apply nth_error_None in E. unfold len in H1. lia.
Qed.

Module TypingBoxCellsProps.
Import TypingBoxCells.

Lemma index_nat (l : list rune) i : 0 <= i -> index l i = nth_error l (Z.to_nat i).
Proof.
  intros Hi. rewrite <- (index_nth_error l (Z.to_nat i)). f_equal. lia.
Qed.

(** X20.  For every position of the target, the typing box draws the rune
    of the target, never the rune typed.  It draws it as correct exactly at
    the positions [CorrectChars] counts, as wrong exactly at those
    [WrongChars] counts, as the cursor at the position equal to the length
    of the input, and as pending beyond it; and reading the input and the
    target there never panics. *)
Theorem cellAt_spec (input target : list rune) (ci : Z) :
  0 <= ci < len target ->
  exists ch st,
    cellAt input target ci = Some (ch, st)
    /\ index target ci = Some ch
    /\ (st = Correct <-> In (Z.to_nat ci) (positions true input target))
    /\ (st = Wrong <-> In (Z.to_nat ci) (positions false input target))
    /\ (st = Cursor <-> ci = len input)
    /\ (st = Pending <-> len input < ci).
Proof.
  intros Hci. unfold cellAt.
  destruct (index_in_range_cells target ci Hci) as (b & Eb). rewrite Eb. cbn [bind].
  assert (Hb : nth_error target (Z.to_nat ci) = Some b)
    by (rewrite <- index_nat by lia; exact Eb).
  destruct (Z.ltb_spec ci (len input)) as [Hlt|Hge].
  - destruct (index_in_range_cells input ci ltac:(lia)) as (a & Ea).
    rewrite Ea. cbn [bind].
    assert (Ha : nth_error input (Z.to_nat ci) = Some a)
      by (rewrite <- index_nat by lia; exact Ea).
    destruct (Z.eqb_spec a b) as [E|E]; cbn [negb bind].
    + exists b, Correct. split; [reflexivity|]. split; [reflexivity|].
      rewrite !positions_spec, Ha, Hb.
      split; [|split; [|split]]; split; try discriminate; try lia; auto.
      * intros _. exists a, b. auto.
      * intros (a' & b' & [= <-] & [= <-] & Hne). contradiction.
    + exists b, Wrong.
      split; [reflexivity|]. split; [reflexivity|].
      rewrite !positions_spec, Ha, Hb.
      split; [|split; [|split]]; split; try discriminate; try lia; auto.
      * intros (a' & b' & [= <-] & [= <-] & He). contradiction.
      * intros _. exists a, b. auto.
  - assert (Hnone : nth_error input (Z.to_nat ci) = None).
    { apply nth_error_None. unfold len in Hge. lia. }
    assert (Hpos : forall same, ~ In (Z.to_nat ci) (positions same input target)).
    { intros same. rewrite positions_spec, Hnone. intros (? & ? & H & _). discriminate. }
    destruct (Z.eqb_spec ci (len input)) as [E|E].
    + exists b, Cursor. split; [reflexivity|]. split; [reflexivity|].
      split; [|split; [|split]]; split; try discriminate; try lia; auto;
        intros H; exfalso; eapply Hpos; exact H.
    + exists b, Pending. split; [reflexivity|]. split; [reflexivity|].
      split; [|split; [|split]]; split; try discriminate; try lia; auto;
        intros H; exfalso; eapply Hpos; exact H.
Qed.

Lemma cellAt_spec_witness :
  exists ch st,
    cellAt [97; 120] [97; 98; 99] 1 = Some (ch, st)
    /\ index [97; 98; 99] 1 = Some ch
    /\ (st = Correct <-> In (Z.to_nat 1) (positions true [97; 120] [97; 98; 99]))
    /\ (st = Wrong <-> In (Z.to_nat 1) (positions false [97; 120] [97; 98; 99]))
    /\ (st = Cursor <-> 1 = len [97; 120])
    /\ (st = Pending <-> len [97; 120] < 1).
Proof.
  apply (cellAt_spec [97; 120] [97; 98; 99] 1). unfold len. simpl. lia.
Defined.

Example cellAt_wrong : cellAt [97; 120] [97; 98; 99] 1 = Some (98, Wrong).
Proof. reflexivity. Qed.

End TypingBoxCellsProps.
